(** * remote-tag-fetch.py: version-aware listing of registry tags

    A shallow embedding of [src/fetch_remote_tag/remote-tag-fetch.py] and the
    properties of its version key, its descending sort and its runner.

    Conventions of the embedding.
    - A Python [str] is a [string]; a character is a code point in the range
      U+0000..U+00FF (one [ascii] each).  In that range the regular
      expression class [\d] and the built-in [int] accept exactly '0'..'9',
      while [str.isdigit] also accepts the superscripts U+00B2, U+00B3 and
      U+00B9.
    - A Python [int] is a [Z]; [int] reads a run of decimal digits of any
      length (the interpreter's optional limit on the length of such a
      literal is not part of the embedding).
    - [sorted] is a stable sort that compares with [<] only; which stable
      sort it is does not matter for keys that always compare.
    - The values PyYAML hands back are the constructors of [pyval].
    - Exceptions are values of [exn]; a computation that may raise returns a
      [result]. *)

From Stdlib Require Import List String Ascii ZArith NArith Bool Lia.
From Stdlib Require Import DecimalString.
From Stdlib Require Import Permutation Sorted OrderedTypeEx.
Import ListNotations.

Local Open Scope string_scope.
Local Open Scope list_scope.

(** String concatenation, as an f-string puts its pieces together. *)
Local Infix "^" := String.append (at level 30, right associativity) : string_scope.

(** ** Python values and exceptions *)

#[warnings="-register-all"]
Inductive pyval : Type :=
| VNone
| VBool (b : bool)
| VInt (z : Z)
| VStr (s : string)
| VList (xs : list pyval)
| VDict (kvs : list (pyval * pyval)).

Inductive exn : Type :=
| SystemExit (code : Z)
| FileNotFoundError
| OSError
| YAMLError (msg : string)
| CalledProcessError (returncode : Z) (stderr : string)
| KeyError
| TypeError
| AttributeError
| ValueError.

Inductive result (A : Type) : Type :=
| Ok (a : A)
| Raise (e : exn).

Arguments Ok {A} a.
Arguments Raise {A} e.

Definition rbind {A B : Type} (r : result A) (k : A -> result B) : result B :=
  match r with
  | Ok a => k a
  | Raise e => Raise e
  end.

Declare Scope result_scope.
Delimit Scope result_scope with result.
Notation "x <- c ;; k" := (rbind c (fun x => k))
  (at level 61, c at next level, right associativity) : result_scope.

Local Open Scope result_scope.

(** [[f(x) for x in xs]], left to right, stopping at the first exception. *)
Fixpoint map_result {A B : Type} (f : A -> result B) (xs : list A)
  : result (list B) :=
  match xs with
  | [] => Ok []
  | x :: xs' =>
      y <- f x ;;
      ys <- map_result f xs' ;;
      Ok (y :: ys)
  end.

(** ** Characters and digit strings *)

(** What [\d] matches and [int] reads: '0'..'9'. *)
Definition is_decimal (c : ascii) : bool :=
  ((48 <=? N_of_ascii c) && (N_of_ascii c <=? 57))%N.

(** The superscript digits of this range: U+00B2, U+00B3, U+00B9. *)
Definition is_superscript (c : ascii) : bool :=
  ((N_of_ascii c =? 178) || (N_of_ascii c =? 179) || (N_of_ascii c =? 185))%N.

(** A character with Numeric_Type Digit or Decimal. *)
Definition isdigit_char (c : ascii) : bool :=
  is_decimal c || is_superscript c.

Fixpoint string_forallb (p : ascii -> bool) (s : string) : bool :=
  match s with
  | EmptyString => true
  | String c s' => p c && string_forallb p s'
  end.

(** [str.isdigit]: every character is a digit and there is at least one. *)
Definition isdigit (s : string) : bool :=
  match s with
  | EmptyString => false
  | String _ _ => string_forallb isdigit_char s
  end.

Definition digit_value (c : ascii) : Z :=
  Z.of_N (N_of_ascii c) - 48.

Fixpoint digits_value (acc : Z) (s : string) : Z :=
  match s with
  | EmptyString => acc
  | String c s' => digits_value (10 * acc + digit_value c) s'
  end.

(** [int(part)] on a string of digit characters: base ten, leading zeros
    allowed; a digit character that is not decimal is an invalid literal. *)
Definition py_int (part : string) : result Z :=
  if string_forallb is_decimal part
  then match part with
       | EmptyString => Raise ValueError
       | String _ _ => Ok (digits_value 0 part)
       end
  else Raise ValueError.

(** ** The version key *)

(** [re.split(r'(\d+)', version)]: the text between the maximal runs of
    decimal digits, with the runs themselves kept (the pattern has a capture
    group), so texts and runs alternate and a text comes first and last. *)
Fixpoint re_split (version : string) : list string :=
  match version with
  | EmptyString => [EmptyString]
  | String c rest =>
      let parts := re_split rest in
      if is_decimal c then
        match parts with
        | EmptyString :: run :: parts' => EmptyString :: String c run :: parts'
        | _ => EmptyString :: String c EmptyString :: parts
        end
      else
        match parts with
        | text :: parts' => String c text :: parts'
        | [] => [String c EmptyString]
        end
  end.

(** An element of the key tuple. *)
Inductive segment : Type :=
| SInt (n : Z)
| SText (s : string).

Definition key : Type := list segment.

(** [int(part) if part.isdigit() else part] *)
Definition convert (part : string) : result segment :=
  if isdigit part
  then n <- py_int part ;; Ok (SInt n)
  else Ok (SText part).

(** [parse_version]; [re.split] refuses an argument that is not a string. *)
Definition parse_version (version : pyval) : result key :=
  match version with
  | VStr s => map_result convert (re_split s)
  | _ => Raise TypeError
  end.

(** ** Comparison of keys *)

(** [==] on elements: an [int] never equals a [str]. *)
Definition segment_eqb (x y : segment) : bool :=
  match x, y with
  | SInt a, SInt b => (a =? b)%Z
  | SText a, SText b => String.eqb a b
  | _, _ => false
  end.

(** [<] on elements: numbers by value, strings by code points, and a
    [TypeError] between a number and a string. *)
Definition segment_lt (x y : segment) : result bool :=
  match x, y with
  | SInt a, SInt b => Ok (a <? b)%Z
  | SText a, SText b => Ok (String.ltb a b)
  | _, _ => Raise TypeError
  end.

(** [<] on tuples: the first position where the elements differ decides;
    without one the shorter tuple is the smaller. *)
Fixpoint tuple_lt (a b : key) : result bool :=
  match a, b with
  | x :: a', y :: b' =>
      if segment_eqb x y then tuple_lt a' b' else segment_lt x y
  | [], _ :: _ => Ok true
  | _, [] => Ok false
  end.

(** ** sorted(tags, key=parse_version, reverse=True) *)

(** Iterating a value: a list gives its elements, a string its characters,
    a mapping its keys; nothing else of [pyval] is iterable. *)
Fixpoint chars (s : string) : list pyval :=
  match s with
  | EmptyString => []
  | String c s' => VStr (String c EmptyString) :: chars s'
  end.

Definition py_iter (v : pyval) : result (list pyval) :=
  match v with
  | VList xs => Ok xs
  | VStr s => Ok (chars s)
  | VDict kvs => Ok (map fst kvs)
  | _ => Raise TypeError
  end.

Definition keyed : Type := (key * pyval)%type.

(** A stable ascending sort that compares with [<] only: [x] goes in front
    of the first element that is not smaller than it. *)
Fixpoint insert_lt (x : keyed) (l : list keyed) : result (list keyed) :=
  match l with
  | [] => Ok [x]
  | y :: l' =>
      b <- tuple_lt (fst y) (fst x) ;;
      if b
      then r <- insert_lt x l' ;; Ok (y :: r)
      else Ok (x :: l)
  end.

Fixpoint sort_lt (l : list keyed) : result (list keyed) :=
  match l with
  | [] => Ok []
  | x :: l' => s <- sort_lt l' ;; insert_lt x s
  end.

(** [sorted]: the keys are computed first, one call per element in order;
    with [reverse=True] the list is reversed, sorted and reversed again,
    which keeps elements of equal key in their original order. *)
Definition sorted_reverse (tags : pyval) : result (list pyval) :=
  items <- py_iter tags ;;
  keys <- map_result parse_version items ;;
  s <- sort_lt (rev (combine keys items)) ;;
  Ok (map snd (rev s)).

(** ** The environment and the effects of the script *)

(** What the script does to the outside, in the order it does it. *)
Inductive event : Type :=
| Run (argv : list string)
| Open (path : string)
| Print (line : string).

(** [subprocess.CompletedProcess] *)
Record completed : Type := {
  returncode : Z;
  stdout : string;
  stderr : string
}.

Inductive opened : Type :=
| Missing
| Unreadable
| Content (text : string).

Inductive yaml_result : Type :=
| YamlError (msg : string)
| YamlValue (v : pyval).

(** Everything the script does not define itself: the processes it starts
    ([None]: the process could not be started or its output not decoded),
    the files it opens, PyYAML's [safe_load], and how a list or a mapping
    is formatted.  Processes and files may answer differently as the
    run goes on, so they see the events so far. *)
Record world : Type := {
  spawn : list event -> list string -> option completed;
  file : list event -> string -> opened;
  yaml : string -> yaml_result;
  repr : pyval -> string
}.

(** A computation takes the events so far and returns them extended,
    together with its value or the exception it raised. *)
Definition M (A : Type) : Type := list event -> list event * result A.

Definition ret {A : Type} (a : A) : M A := fun h => (h, Ok a).

Definition raise {A : Type} (e : exn) : M A := fun h => (h, Raise e).

Definition bind {A B : Type} (c : M A) (k : A -> M B) : M B :=
  fun h =>
    match c h with
    | (h', Ok a) => k a h'
    | (h', Raise e) => (h', Raise e)
    end.

Definition lift {A : Type} (r : result A) : M A := fun h => (h, r).

Definition emit (e : event) : M unit := fun h => (h ++ [e], Ok tt).

(** [try: body except ...]: [handler] gives the clause that matches the
    exception, if one does. *)
Definition try_except {A : Type} (body : M A) (handler : exn -> option (M A))
  : M A :=
  fun h =>
    match body h with
    | (h', Ok a) => (h', Ok a)
    | (h', Raise e) =>
        match handler e with
        | Some c => c h'
        | None => (h', Raise e)
        end
    end.

Declare Scope prog_scope.
Delimit Scope prog_scope with prog.
Notation "x <- c ;; k" := (bind c (fun x => k))
  (at level 61, c at next level, right associativity) : prog_scope.
Notation "c ;; k" := (bind c (fun _ => k))
  (at level 61, right associativity) : prog_scope.

Local Open Scope prog_scope.

(** [for x in xs: body(x)] *)
Fixpoint for_each {A : Type} (xs : list A) (body : A -> M unit) : M unit :=
  match xs with
  | [] => ret tt
  | x :: xs' => body x ;; for_each xs' body
  end.

Definition print (line : string) : M unit := emit (Print line).

Definition sys_exit {A : Type} (code : Z) : M A := raise (SystemExit code).

(** ** Built-ins of Python used by the script *)

(** [bool(v)] *)
Definition truthy (v : pyval) : bool :=
  match v with
  | VNone => false
  | VBool b => b
  | VInt z => negb (z =? 0)%Z
  | VStr s => negb (String.eqb s "")
  | VList xs => match xs with [] => false | _ => true end
  | VDict kvs => match kvs with [] => false | _ => true end
  end.

Definition is_key (name : string) (k : pyval) : bool :=
  match k with
  | VStr s => String.eqb s name
  | _ => false
  end.

Fixpoint lookup (name : string) (kvs : list (pyval * pyval)) : option pyval :=
  match kvs with
  | [] => None
  | (k, v) :: kvs' => if is_key name k then Some v else lookup name kvs'
  end.

(** [obj[name]] for a string [name]: only a mapping can be indexed by one. *)
Definition getitem (obj : pyval) (name : string) : result pyval :=
  match obj with
  | VDict kvs =>
      match lookup name kvs with
      | Some v => Ok v
      | None => Raise KeyError
      end
  | _ => Raise TypeError
  end.

(** [obj.get(name, default)]: a method of mappings only. *)
Definition dict_get (obj : pyval) (name : string) (default : pyval)
  : result pyval :=
  match obj with
  | VDict kvs =>
      match lookup name kvs with
      | Some v => Ok v
      | None => Ok default
      end
  | _ => Raise AttributeError
  end.

(** [str(z)]: decimal digits, with a minus sign below zero. *)
Definition string_of_Z (z : Z) : string :=
  NilZero.string_of_int (Z.to_int z).

(** [xs[:n]] for an integer [n]: a negative [n] counts from the end. *)
Definition slice_to_int (xs : list pyval) (n : Z) : list pyval :=
  if (n <? 0)%Z
  then firstn (Z.to_nat (Z.of_nat (List.length xs) + n)) xs
  else firstn (Z.to_nat n) xs.

(** [xs[:stop]]: [None] keeps everything, a [bool] is an integer, and
    anything else is not an index. *)
Definition slice_to (xs : list pyval) (stop : pyval) : result (list pyval) :=
  match stop with
  | VNone => Ok xs
  | VInt n => Ok (slice_to_int xs n)
  | VBool b => Ok (slice_to_int xs (if b then 1 else 0))
  | _ => Raise TypeError
  end.

Section Script.

Variable w : world.

(** [str(v)], as an f-string and [print] format a value; the world formats
    lists and mappings. *)
Definition py_str (v : pyval) : string :=
  match v with
  | VStr s => s
  | VInt z => string_of_Z z
  | VNone => "None"
  | VBool true => "True"
  | VBool false => "False"
  | _ => repr w v
  end.

(** [subprocess.run(argv, ..., check=check)] *)
Definition subprocess_run (argv : list string) (check : bool) : M completed :=
  fun h =>
    match spawn w h argv with
    | None => (h ++ [Run argv], Raise OSError)
    | Some r =>
        if check && negb (returncode r =? 0)%Z
        then (h ++ [Run argv],
              Raise (CalledProcessError (returncode r) (stderr r)))
        else (h ++ [Run argv], Ok r)
    end.

(** [open(path, 'r')] and reading the whole file. *)
Definition open_read (path : string) : M string :=
  fun h =>
    match file w h path with
    | Missing => (h ++ [Open path], Raise FileNotFoundError)
    | Unreadable => (h ++ [Open path], Raise OSError)
    | Content text => (h ++ [Open path], Ok text)
    end.

Definition yaml_safe_load (text : string) : M pyval :=
  match yaml w text with
  | YamlError msg => raise (YAMLError msg)
  | YamlValue v => ret v
  end.

(** ** The script *)

Definition check_command_exists (command : string) : M bool :=
  result <- subprocess_run ["which"; command] false ;;
  ret (returncode result =? 0)%Z.

Definition skopeo_argv (registry image : pyval) : list string :=
  ["skopeo"; "list-tags"; "--no-creds";
   "docker://" ^ py_str registry ^ "/" ^ py_str image].

Definition fetch_tags (registry image max_tags : pyval) : M unit :=
  print ("Fetching tags for " ^ py_str image ^ " from "
         ^ py_str registry ^ "...") ;;
  fetched <-
    try_except
      (result <- subprocess_run (skopeo_argv registry image) true ;;
       response <- yaml_safe_load (stdout result) ;;
       tags <- lift (getitem response "Tags") ;;
       ret (Some tags))
      (fun e =>
         match e with
         | CalledProcessError _ err =>
             Some (print ("Error fetching tags for " ^ py_str image
                          ^ " from " ^ py_str registry ^ ": " ^ err) ;;
                   ret None)
         | _ => None
         end) ;;
  match fetched with
  | None => ret tt
  | Some tags =>
      if negb (truthy tags)
      then print ("No tags found for " ^ py_str image ^ " in "
                  ^ py_str registry ^ ".")
      else
        sorted_tags <- lift (sorted_reverse tags) ;;
        print ("Latest " ^ py_str max_tags ^ " tags for "
               ^ py_str image ^ ":") ;;
        shown <- lift (slice_to sorted_tags max_tags) ;;
        for_each shown (fun tag => print (py_str tag)) ;;
        print ""
  end.

Definition load_config : M pyval :=
  try_except
    (text <- open_read "config.yaml" ;;
     yaml_safe_load text)
    (fun e =>
       match e with
       | FileNotFoundError =>
           Some (print "config.yaml file not found." ;; sys_exit 1)
       | YAMLError msg =>
           Some (print ("Error parsing YAML file: " ^ msg) ;; sys_exit 1)
       | _ => None
       end).

Definition fetch_registry (max_tags registry_config : pyval) : M unit :=
  registry <- lift (getitem registry_config "registry") ;;
  images <- lift (rbind (getitem registry_config "images") py_iter) ;;
  for_each images (fun image => fetch_tags registry image max_tags).

Definition main : M unit :=
  found <- check_command_exists "skopeo" ;;
  (if negb found
   then print "Skopeo is not installed. Please install Skopeo to use this script." ;;
        sys_exit 1
   else ret tt) ;;
  config <- load_config ;;
  max_tags <- lift (dict_get config "max" (VInt 3)) ;;
  registries <- lift (rbind (getitem config "registries") py_iter) ;;
  for_each registries (fetch_registry max_tags).

(** The status the interpreter exits with: 0 when [main] returns, the
    argument of [sys.exit], and 1 after an exception nobody caught. *)
Definition exit_code (r : result unit) : Z :=
  match r with
  | Ok _ => 0
  | Raise (SystemExit code) => code
  | Raise _ => 1
  end.

(** A run of the script: what it did and the status it exited with. *)
Definition run_script : list event * Z :=
  let (trace, r) := main [] in (trace, exit_code r).

End Script.

(** The command lines of the processes started, in order. *)
Fixpoint runs (trace : list event) : list (list string) :=
  match trace with
  | [] => []
  | Run argv :: trace' => argv :: runs trace'
  | _ :: trace' => runs trace'
  end.

(** ** A sample environment *)

Module Sample.

Definition answer (out : string) : completed :=
  {| returncode := 0; stdout := out; stderr := "" |}.

Definition failure (err : string) : completed :=
  {| returncode := 1; stdout := ""; stderr := err |}.

Definition tags_of (ts : list string) : pyval :=
  VDict [(VStr "Repository", VStr "repo"); (VStr "Tags", VList (map VStr ts))].

Definition config : pyval :=
  VDict [(VStr "max", VInt 2);
         (VStr "registries",
          VList [VDict [(VStr "registry", VStr "quay.io");
                        (VStr "images", VList [VStr "a/one"; VStr "a/two"; VStr "a/three"])]])].

Definition w : world := {|
  spawn := fun _ argv =>
    match argv with
    | ["which"; _] => Some (answer "/usr/bin/skopeo")
    | [_; _; _; "docker://quay.io/a/one"] => Some (failure "denied")
    | [_; _; _; "docker://quay.io/a/two"] => Some (answer "none")
    | [_; _; _; _] => Some (answer "three")
    | _ => None
    end;
  file := fun _ _ => Content "config";
  yaml := fun text =>
    if String.eqb text "config" then YamlValue config
    else if String.eqb text "none" then YamlValue (VDict [(VStr "Tags", VNone)])
    else if String.eqb text "three" then YamlValue (tags_of ["1.2.0"; "1.10.0"; "1.9.0"])
    else YamlError "bad";
  repr := fun _ => "?"
|}.




End Sample.

(** ** Vocabulary of the properties *)

(** Texts and numbers take turns along a key, a text first when
    [text_next] holds. *)
Fixpoint alternates_from (text_next : bool) (k : key) : bool :=
  match k with
  | [] => true
  | SText _ :: k' => text_next && alternates_from false k'
  | SInt _ :: k' => negb text_next && alternates_from true k'
  end.

Definition alternates (k : key) : bool := alternates_from true k.

(** The non-numeric parts of a key, and its numbers, in order. *)
Fixpoint texts (k : key) : list string :=
  match k with
  | [] => []
  | SText s :: k' => s :: texts k'
  | SInt _ :: k' => texts k'
  end.

Fixpoint numbers (k : key) : list Z :=
  match k with
  | [] => []
  | SInt n :: k' => n :: numbers k'
  | SText _ :: k' => numbers k'
  end.

(** Lists of integers, the first difference deciding. *)
Fixpoint Zlist_ltb (a b : list Z) : bool :=
  match a, b with
  | x :: a', y :: b' => if (x =? y)%Z then Zlist_ltb a' b' else (x <? y)%Z
  | [], _ :: _ => true
  | _, [] => false
  end.

(** A total comparison of keys that agrees with [tuple_lt] wherever
    [tuple_lt] answers; a number is put before a text only to make it
    total. *)
Definition segment_compare (x y : segment) : comparison :=
  match x, y with
  | SInt a, SInt b => (a ?= b)%Z
  | SText a, SText b => String.compare a b
  | SInt _, SText _ => Lt
  | SText _, SInt _ => Gt
  end.

Definition key_compare (a b : key) : comparison :=
  list_compare segment_compare a b.

Definition key_ltb (a b : key) : bool :=
  match key_compare a b with
  | Lt => true
  | _ => false
  end.

(** The sort of [sort_lt] for a comparison that cannot raise. *)
Section Insertion.

Variable A : Type.
Variable ltb : A -> A -> bool.

Fixpoint insert_by (x : A) (l : list A) : list A :=
  match l with
  | [] => [x]
  | y :: l' => if ltb y x then y :: insert_by x l' else x :: l
  end.

Fixpoint sort_by (l : list A) : list A :=
  match l with
  | [] => []
  | x :: l' => insert_by x (sort_by l')
  end.

End Insertion.

Arguments insert_by {A} ltb x l.
Arguments sort_by {A} ltb l.

Definition keyed_ltb (x y : keyed) : bool := key_ltb (fst x) (fst y).


(** The numbers of a tag's key (none when the tag has no key). *)
Definition tag_numbers (tag : pyval) : list Z :=
  match parse_version tag with
  | Ok k => numbers k
  | Raise _ => []
  end.

Definition key_eqb (a b : key) : bool :=
  match key_compare a b with
  | Eq => true
  | _ => false
  end.

(** The tag has key [k]. *)
Definition has_key (k : key) (tag : pyval) : bool :=
  match parse_version tag with
  | Ok k' => key_eqb k' k
  | Raise _ => false
  end.

(** What [re.split] returns: texts without a decimal digit and non-empty
    runs of decimal digits, taking turns, a text first and last. *)
Definition no_decimal (s : string) : bool :=
  string_forallb (fun c => negb (is_decimal c)) s.

Definition is_run (s : string) : bool :=
  match s with
  | EmptyString => false
  | String _ _ => string_forallb is_decimal s
  end.

Fixpoint parts_ok (text_next : bool) (ps : list string) : bool :=
  match ps with
  | [] => negb text_next
  | p :: ps' =>
      if text_next
      then no_decimal p && parts_ok false ps'
      else is_run p && parts_ok true ps'
  end.

(** The runs are maximal: in [run; text; run; ...] a text between two runs
    is not empty. *)
Fixpoint runs_maximal (ps : list string) : bool :=
  match ps with
  | _ :: text :: ((_ :: _) as rest) =>
      negb (String.eqb text "") && runs_maximal rest
  | _ => true
  end.

Fixpoint join (ps : list string) : string :=
  match ps with
  | [] => ""
  | p :: ps' => p ^ join ps'
  end.

(** [<] between the keys of two tags. *)
Definition tag_ltb (a b : pyval) : bool :=
  match parse_version a, parse_version b with
  | Ok ka, Ok kb => key_ltb ka kb
  | _, _ => false
  end.

(** Every element carries the key of its tag. *)
Definition keyed_ok (l : list keyed) : Prop :=
  Forall (fun x => parse_version (snd x) = Ok (fst x)) l.


(** The lines a fetch prints. *)
Definition fetching_line (w : world) (registry image : pyval) : string :=
  "Fetching tags for " ^ py_str w image ^ " from " ^ py_str w registry ^ "...".

Definition error_line (w : world) (registry image : pyval) (err : string)
  : string :=
  "Error fetching tags for " ^ py_str w image ^ " from " ^ py_str w registry
  ^ ": " ^ err.

Definition no_tags_line (w : world) (registry image : pyval) : string :=
  "No tags found for " ^ py_str w image ^ " in " ^ py_str w registry ^ ".".

Definition latest_line (w : world) (max_tags image : pyval) : string :=
  "Latest " ^ py_str w max_tags ^ " tags for " ^ py_str w image ^ ":".

(** The (registry, image) pairs of a configuration, in its order; an
    exception where the loops of [main] would meet one. *)
Definition entry_pairs (entry : pyval) : result (list (pyval * pyval)) :=
  (registry <- getitem entry "registry" ;;
   images <- rbind (getitem entry "images") py_iter ;;
   Ok (map (pair registry) images))%result.

Definition config_pairs (config : pyval) : result (list (pyval * pyval)) :=
  (entries <- rbind (getitem config "registries") py_iter ;;
   pairs <- map_result entry_pairs entries ;;
   Ok (List.concat pairs))%result.

(** A value that [xs[:stop]] accepts as [stop]. *)
Definition sliceable (stop : pyval) : bool :=
  match stop with
  | VNone | VInt _ | VBool _ => true
  | _ => false
  end.

(** An answer of the tool that [fetch_tags] copes with: a failure, or a
    mapping whose [Tags] are none or can be sorted. *)
Definition benign (w : world) (a : completed) : Prop :=
  returncode a <> 0%Z
  \/ exists response tags,
      yaml w (stdout a) = YamlValue response
      /\ getitem response "Tags" = Ok tags
      /\ (truthy tags = false \/ exists st, sorted_reverse tags = Ok st).


(** ** Environments in which the run breaks off *)

Module Broken.

Definition answer (out : string) : completed :=
  {| returncode := 0; stdout := out; stderr := "" |}.

Definition config : pyval :=
  VDict [(VStr "registries",
          VList [VDict [(VStr "registry", VStr "quay.io");
                        (VStr "images", VList [VStr "a/one"; VStr "a/two"])]])].

(** The tool exits with status zero and prints [out]; [safe_load] gives
    [response] for it. *)
Definition world_with (out : string) (response : pyval) : world := {|
  spawn := fun _ argv =>
    match argv with
    | [_; _] => Some (answer "/usr/bin/skopeo")
    | _ => Some (answer out)
    end;
  file := fun _ _ => Content "config";
  yaml := fun text =>
    if String.eqb text "config" then YamlValue config else YamlValue response;
  repr := fun _ => "?"
|}.


(** No output at all, which [safe_load] reads as [None]. *)
Definition no_output : world := world_with "" VNone.

(** A tag that is a superscript two. *)
Definition superscript_two : string :=
  String (ascii_of_nat 178) EmptyString.

Definition superscript_tag : world :=
  world_with "Tags: [superscript two]"
             (VDict [(VStr "Tags", VList [VStr superscript_two])]).

End Broken.

(** The shape of a key: what the converted parts look like. *)
Definition key_shape (text_next : bool) (k : key) : Prop :=
  alternates_from text_next k = true
  /\ Forall (fun t => no_decimal t = true /\ isdigit t = false) (texts k)
  /\ Forall (fun n => (0 <= n)%Z) (numbers k).

(** Every key of the list alternates. *)
Definition keys_alternate (l : list keyed) : Prop :=
  Forall (fun x => alternates (fst x) = true) l.

(** [main] once the tool has been found, and once the configuration has
    been loaded. *)
Definition after_config (w : world) (config : pyval) : M unit :=
  max_tags <- lift (dict_get config "max" (VInt 3)) ;;
  registries <- lift (rbind (getitem config "registries") py_iter) ;;
  for_each registries (fetch_registry w max_tags).

Definition after_check (w : world) : M unit :=
  config <- load_config w ;;
  after_config w config.

(** The command line that lists the tags of a pair. *)
Definition pair_argv (w : world) (p : pyval * pyval) : list string :=
  skopeo_argv w (fst p) (snd p).


Definition is_print (e : event) : bool :=
  match e with
  | Print _ => true
  | _ => false
  end.

(** An exception that is neither [SystemExit] nor [CalledProcessError]. *)
Definition ordinary (e : exn) : bool :=
  match e with
  | SystemExit _ | CalledProcessError _ _ => false
  | _ => true
  end.


Definition is_mapping (v : pyval) : bool :=
  match v with
  | VDict _ => true
  | _ => false
  end.

(** An environment whose configuration file is empty. *)
Module EmptyConfig.

Definition w : world := {|
  spawn := fun _ _ => Some (Broken.answer "/usr/bin/skopeo");
  file := fun _ _ => Content "";
  yaml := fun _ => YamlValue VNone;
  repr := fun _ => "?"
|}.

End EmptyConfig.

(** An environment whose second registry entry has no [images]. *)
Module BadEntry.

Definition config : pyval :=
  VDict [(VStr "registries",
          VList [VDict [(VStr "registry", VStr "quay.io");
                        (VStr "images", VList [VStr "a/one"])];
                 VDict [(VStr "registry", VStr "ghcr.io")];
                 VDict [(VStr "registry", VStr "docker.io");
                        (VStr "images", VList [VStr "a/two"])]])].

Definition w : world := {|
  spawn := fun _ argv =>
    match argv with
    | [_; _] => Some (Sample.answer "/usr/bin/skopeo")
    | _ => Some (Sample.failure "denied")
    end;
  file := fun _ _ => Content "config";
  yaml := fun _ => YamlValue config;
  repr := fun _ => "?"
|}.

End BadEntry.

(** * Properties *)

Arguments is_decimal : simpl never.
Arguments is_superscript : simpl never.
Arguments isdigit_char : simpl never.

(** ** Some values *)

Example re_split_1_2_0 :
  re_split "1.2.0" = [""; "1"; "."; "2"; "."; "0"; ""].
Proof. reflexivity. Qed.

Example parse_version_v10 :
  parse_version (VStr "v10-rc2") = Ok [SText "v"; SInt 10; SText "-rc"; SInt 2; SText ""].
Proof. reflexivity. Qed.

Example sorted_reverse_three :
  sorted_reverse (VList [VStr "1.2.0"; VStr "1.10.0"; VStr "1.9.0"])
  = Ok [VStr "1.10.0"; VStr "1.9.0"; VStr "1.2.0"].
Proof. reflexivity. Qed.

(** ** The order on keys *)

Lemma string_compare_eq (a b : string) : String.compare a b = Eq <-> a = b.
Proof. exact (OrderedTypeEx.String_as_OT.cmp_eq a b). Qed.

Lemma string_compare_trans (a b c : string) (o : comparison) :
  String.compare a b = o -> String.compare b c = o -> String.compare a c = o.
Proof.
  destruct o; intros Hab Hbc.
  - apply string_compare_eq in Hab, Hbc. subst. now apply string_compare_eq.
  - apply OrderedTypeEx.String_as_OT.cmp_lt in Hab, Hbc.
    apply OrderedTypeEx.String_as_OT.cmp_lt.
    eapply OrderedTypeEx.String_as_OT.lt_trans; eassumption.
  - rewrite String.compare_antisym in Hab, Hbc |- *.
    apply CompOpp_iff in Hab, Hbc. apply CompOpp_iff. simpl in *.
    apply OrderedTypeEx.String_as_OT.cmp_lt in Hab, Hbc.
    apply OrderedTypeEx.String_as_OT.cmp_lt.
    eapply OrderedTypeEx.String_as_OT.lt_trans; eassumption.
Qed.

Lemma segment_compare_eq (x y : segment) : segment_compare x y = Eq <-> x = y.
Proof.
  destruct x as [a|a], y as [b|b]; simpl; split; intros H;
    try discriminate; try congruence.
  - apply Z.compare_eq in H. congruence.
  - injection H as ->. apply Z.compare_refl.
  - apply string_compare_eq in H. congruence.
  - injection H as ->. now apply string_compare_eq.
Qed.

Lemma segment_compare_antisym (x y : segment) :
  segment_compare y x = CompOpp (segment_compare x y).
Proof.
  destruct x as [a|a], y as [b|b]; simpl; try reflexivity.
  - apply Z.compare_antisym.
  - apply String.compare_antisym.
Qed.

Lemma segment_compare_trans (x y z : segment) (o : comparison) :
  segment_compare x y = o -> segment_compare y z = o -> segment_compare x z = o.
Proof.
  destruct x as [a|a], y as [b|b], z as [c|c]; simpl; intros Hxy Hyz;
    try congruence.
  - destruct o.
    + apply Z.compare_eq in Hxy, Hyz. subst. apply Z.compare_refl.
    + rewrite Z.compare_lt_iff in *. lia.
    + rewrite Z.compare_gt_iff in *. lia.
  - eapply string_compare_trans; eassumption.
Qed.

Lemma key_compare_eq (a b : key) : key_compare a b = Eq <-> a = b.
Proof. apply list_compare_refl, segment_compare_eq. Qed.

Lemma key_compare_antisym (a b : key) :
  key_compare b a = CompOpp (key_compare a b).
Proof.
  apply list_compare_antisym;
    [apply segment_compare_eq | apply segment_compare_antisym].
Qed.

Lemma key_compare_trans (a b c : key) (o : comparison) :
  key_compare a b = o -> key_compare b c = o -> key_compare a c = o.
Proof.
  apply list_compare_trans;
    [apply segment_compare_eq | apply segment_compare_trans
    | apply segment_compare_antisym].
Qed.

Lemma key_ltb_irrefl (a : key) : key_ltb a a = false.
Proof.
  unfold key_ltb. now rewrite (proj2 (key_compare_eq a a) eq_refl).
Qed.

Lemma key_ltb_asym (a b : key) : key_ltb a b = true -> key_ltb b a = false.
Proof.
  unfold key_ltb. rewrite (key_compare_antisym a b).
  destruct (key_compare a b); simpl; congruence.
Qed.

(** [a >= b] and [b >= c] give [a >= c]. *)
Lemma key_ltb_negtrans (a b c : key) :
  key_ltb a b = false -> key_ltb b c = false -> key_ltb a c = false.
Proof.
  unfold key_ltb. intros Hab Hbc.
  destruct (key_compare a b) eqn:Eab; try discriminate;
    destruct (key_compare b c) eqn:Ebc; try discriminate.
  - apply key_compare_eq in Eab. subst. now rewrite Ebc.
  - apply key_compare_eq in Eab. subst. now rewrite Ebc.
  - apply key_compare_eq in Ebc. subst. now rewrite Eab.
  - now rewrite (key_compare_trans a b c Gt Eab Ebc).
Qed.

(** ** [re.split] *)

Lemma re_split_join (s : string) : join (re_split s) = s.
Proof.
  induction s as [|c s IH]; [reflexivity|].
  simpl. destruct (is_decimal c).
  - destruct (re_split s) as [|[|d t] [|run ps]]; simpl in *; congruence.
  - destruct (re_split s) as [|t ps]; simpl in *; congruence.
Qed.

Lemma re_split_parts_ok (s : string) : parts_ok true (re_split s) = true.
Proof.
  induction s as [|c s IH]; [reflexivity|].
  simpl. destruct (is_decimal c) eqn:Hc.
  - destruct (re_split s) as [|[|d t] [|run ps]]; simpl in *;
      try discriminate; rewrite ?Hc; simpl; try assumption.
    destruct run; simpl in *; [discriminate|assumption].
  - destruct (re_split s) as [|t ps]; simpl in *; try discriminate.
    unfold no_decimal in *. simpl. now rewrite Hc.
Qed.

Lemma re_split_runs_maximal (s : string) :
  runs_maximal (tl (re_split s)) = true.
Proof.
  induction s as [|c s IH]; [reflexivity|].
  simpl. destruct (is_decimal c).
  - destruct (re_split s) as [|[|d t] [|run ps]]; simpl in *;
      try reflexivity; try assumption.
  - destruct (re_split s) as [|t ps]; simpl in *; [reflexivity|assumption].
Qed.

(** ** Keys *)

Lemma is_run_isdigit (p : string) : is_run p = true -> isdigit p = true.
Proof.
  destruct p as [|c p]; [discriminate|]. unfold is_run, isdigit.
  generalize (String c p). intros s. induction s as [|d s IH]; simpl; auto.
  intros H. apply andb_prop in H as [Hd Hs].
  unfold isdigit_char. rewrite Hd. simpl. auto.
Qed.

Lemma convert_run (p : string) :
  is_run p = true -> convert p = Ok (SInt (digits_value 0 p)).
Proof.
  intros H. unfold convert. rewrite (is_run_isdigit p H).
  unfold py_int. destruct p as [|c p]; [discriminate|].
  unfold is_run in H. rewrite H. reflexivity.
Qed.

Lemma convert_text (p : string) :
  no_decimal p = true ->
  (isdigit p = false /\ convert p = Ok (SText p))
  \/ (isdigit p = true /\ convert p = Raise ValueError).
Proof.
  intros H. unfold convert. destruct (isdigit p) eqn:Hd; [right|left; auto].
  split; [reflexivity|].
  destruct p as [|c p]; [discriminate|].
  unfold no_decimal in H. simpl in H. apply andb_prop in H as [Hc _].
  unfold py_int. simpl. apply negb_true_iff in Hc. now rewrite Hc.
Qed.

Lemma digits_value_nonneg (s : string) (acc : Z) :
  (0 <= acc)%Z -> string_forallb is_decimal s = true ->
  (0 <= digits_value acc s)%Z.
Proof.
  revert acc.
  induction s as [|c s IH]; cbn [digits_value string_forallb];
    intros acc Hacc H; [assumption|].
  apply andb_prop in H as [Hc Hs]. apply IH; [|assumption].
  unfold is_decimal in Hc. apply andb_prop in Hc as [Hlo Hhi].
  apply N.leb_le in Hlo. unfold digit_value. lia.
Qed.

Lemma map_convert_shape (ps : list string) :
  forall text_next,
    parts_ok text_next ps = true ->
    match map_result convert ps with
    | Ok k => key_shape text_next k /\ List.length k = List.length ps
    | Raise e => e = ValueError
    end.
Proof.
  induction ps as [|p ps IH]; intros b H; simpl in *.
  - repeat split; constructor.
  - destruct b; apply andb_prop in H as [Hp Hps]; specialize (IH _ Hps).
    + destruct (convert_text p Hp) as [[Hd ->]|[_ ->]]; simpl; [|reflexivity].
      destruct (map_result convert ps) as [k|e]; simpl; [|assumption].
      destruct IH as [(Ha & Ht & Hn) Hl].
      repeat split; simpl; auto.
    + rewrite (convert_run p Hp). simpl.
      destruct (map_result convert ps) as [k|e]; simpl; [|assumption].
      destruct IH as [(Ha & Ht & Hn) Hl].
      repeat split; simpl; auto.
      constructor; [|assumption].
      destruct p as [|c p]; [discriminate|].
      apply digits_value_nonneg; [lia|exact Hp].
Qed.

Lemma parse_version_shape (version : pyval) (k : key) :
  parse_version version = Ok k -> key_shape true k.
Proof.
  destruct version; simpl; try discriminate. intros H.
  pose proof (map_convert_shape _ true (re_split_parts_ok s)) as Hs.
  rewrite H in Hs. apply Hs.
Qed.

Lemma parse_version_alternates (version : pyval) (k : key) :
  parse_version version = Ok k -> alternates k = true.
Proof. intros H. apply (parse_version_shape _ _ H). Qed.

(** [parse_version] raises nothing but [ValueError] on a string. *)
Lemma parse_version_str_error (s : string) (e : exn) :
  parse_version (VStr s) = Raise e -> e = ValueError.
Proof.
  simpl. intros H.
  pose proof (map_convert_shape _ true (re_split_parts_ok s)) as Hs.
  now rewrite H in Hs.
Qed.

(** ** Comparing keys never mixes a number with a text *)

Lemma segment_lt_compare (x y : segment) :
  segment_eqb x y = false ->
  (exists a b, x = SInt a /\ y = SInt b) \/ (exists a b, x = SText a /\ y = SText b) ->
  segment_compare x y <> Eq
  /\ segment_lt x y = Ok match segment_compare x y with Lt => true | _ => false end.
Proof.
  intros Hne [(a & b & -> & ->)|(a & b & -> & ->)]; simpl in *.
  - apply Z.eqb_neq in Hne. split.
    + intros H. apply Z.compare_eq in H. contradiction.
    + reflexivity.
  - apply String.eqb_neq in Hne. split.
    + intros H. apply string_compare_eq in H. contradiction.
    + reflexivity.
Qed.

Lemma segment_eqb_compare (x y : segment) :
  segment_eqb x y = true -> segment_compare x y = Eq.
Proof.
  destruct x as [a|a], y as [b|b]; simpl; try discriminate; intros H.
  - apply Z.eqb_eq in H. subst. apply Z.compare_refl.
  - apply String.eqb_eq in H. subst. now apply string_compare_eq.
Qed.

Lemma tuple_lt_key_ltb (a : key) :
  forall (text_next : bool) (b : key),
    alternates_from text_next a = true ->
    alternates_from text_next b = true ->
    tuple_lt a b = Ok (key_ltb a b).
Proof.
  induction a as [|x a IH]; intros t b Ha Hb.
  - destruct b; reflexivity.
  - destruct b as [|y b]; [reflexivity|].
    unfold key_ltb, key_compare. cbn [tuple_lt list_compare].
    destruct (segment_eqb x y) eqn:Exy.
    + rewrite (segment_eqb_compare _ _ Exy).
      destruct x, y, t; simpl in *; try discriminate;
        apply (IH _ _ Ha Hb).
    + assert (Hsame : (exists a b, x = SInt a /\ y = SInt b)
                      \/ (exists a b, x = SText a /\ y = SText b)).
      { destruct x, y, t; simpl in *; try discriminate; eauto. }
      destruct (segment_lt_compare x y Exy Hsame) as [Hne ->].
      destruct (segment_compare x y); congruence.
Qed.

(** Two keys of tags compare without an exception. *)
Lemma parsed_keys_comparable (v1 v2 : pyval) (k1 k2 : key) :
  parse_version v1 = Ok k1 -> parse_version v2 = Ok k2 ->
  tuple_lt k1 k2 = Ok (key_ltb k1 k2).
Proof.
  intros H1 H2. apply (tuple_lt_key_ltb k1 true);
    eapply parse_version_alternates; eassumption.
Qed.

(** ** The sort, without exceptions *)

Lemma insert_by_Forall {A : Type} (P : A -> Prop) (ltb : A -> A -> bool)
      (x : A) (l : list A) :
  P x -> Forall P l -> Forall P (insert_by ltb x l).
Proof.
  intros Hx. induction 1 as [|y l Hy Hl IH]; simpl.
  - constructor; auto.
  - destruct (ltb y x); constructor; auto.
Qed.

Lemma sort_by_Forall {A : Type} (P : A -> Prop) (ltb : A -> A -> bool)
      (l : list A) :
  Forall P l -> Forall P (sort_by ltb l).
Proof.
  induction 1 as [|x l Hx Hl IH]; simpl; [constructor|].
  now apply insert_by_Forall.
Qed.

Lemma insert_lt_pure (x : keyed) (l : list keyed) :
  alternates (fst x) = true -> keys_alternate l ->
  insert_lt x l = Ok (insert_by keyed_ltb x l).
Proof.
  intros Hx. induction 1 as [|y l Hy Hl IH]; simpl; [reflexivity|].
  rewrite (tuple_lt_key_ltb _ true _ Hy Hx). simpl.
  unfold keyed_ltb at 1. destruct (key_ltb (fst y) (fst x)); [|reflexivity].
  now rewrite IH.
Qed.

Lemma sort_lt_pure (l : list keyed) :
  keys_alternate l -> sort_lt l = Ok (sort_by keyed_ltb l).
Proof.
  induction 1 as [|x l Hx Hl IH]; simpl; [reflexivity|].
  rewrite IH. simpl. apply insert_lt_pure; [assumption|].
  now apply sort_by_Forall.
Qed.

(** ** The insertion sort: permutation, stability, order *)

Section InsertionFacts.

Variable A : Type.
Variable ltb : A -> A -> bool.

Lemma insert_by_perm (x : A) (l : list A) :
  Permutation (x :: l) (insert_by ltb x l).
Proof.
  induction l as [|y l IH]; simpl; [reflexivity|].
  destruct (ltb y x); [|reflexivity].
  rewrite perm_swap. now apply perm_skip.
Qed.

Lemma sort_by_perm (l : list A) : Permutation l (sort_by ltb l).
Proof.
  induction l as [|x l IH]; simpl; [reflexivity|].
  rewrite <- insert_by_perm. now apply perm_skip.
Qed.

Section Stable.

(** [p] picks elements none of which is smaller than another. *)
Variable p : A -> bool.
Hypothesis p_unordered :
  forall x y, p x = true -> p y = true -> ltb y x = false.

Lemma insert_by_filter (x : A) (l : list A) :
  filter p (insert_by ltb x l) = filter p (x :: l).
Proof.
  induction l as [|y l IH]; [reflexivity|].
  cbn [insert_by]. destruct (ltb y x) eqn:Hyx; [|reflexivity].
  cbn [filter] in *. rewrite IH.
  destruct (p x) eqn:Hx, (p y) eqn:Hy; try reflexivity.
  rewrite (p_unordered x y Hx Hy) in Hyx. discriminate.
Qed.

Lemma sort_by_filter (l : list A) : filter p (sort_by ltb l) = filter p l.
Proof.
  induction l as [|x l IH]; [reflexivity|].
  cbn [sort_by]. rewrite insert_by_filter. cbn [filter]. now rewrite IH.
Qed.

(** Reversing, sorting and reversing again keeps them in place as well. *)
Lemma sort_by_rev_filter (l : list A) :
  filter p (rev (sort_by ltb (rev l))) = filter p l.
Proof.
  rewrite filter_rev, sort_by_filter, filter_rev. apply rev_involutive.
Qed.

End Stable.

Section Ordered.

Hypothesis ltb_asym : forall x y, ltb x y = true -> ltb y x = false.
Hypothesis ltb_negtrans :
  forall x y z, ltb x y = false -> ltb y z = false -> ltb x z = false.

Lemma insert_by_sorted (x : A) (l : list A) :
  StronglySorted (fun a b => ltb b a = false) l ->
  StronglySorted (fun a b => ltb b a = false) (insert_by ltb x l).
Proof.
  induction 1 as [|y l Hl IH Hy]; simpl.
  - constructor; constructor.
  - destruct (ltb y x) eqn:Hyx.
    + constructor; [assumption|].
      eapply Permutation_Forall; [apply insert_by_perm|].
      constructor; [now apply ltb_asym|assumption].
    + constructor; [now constructor|].
      constructor; [assumption|].
      eapply Forall_impl; [|exact Hy].
      intros z Hz. simpl in Hz. now apply (ltb_negtrans z y x).
Qed.

Lemma sort_by_sorted (l : list A) :
  StronglySorted (fun a b => ltb b a = false) (sort_by ltb l).
Proof.
  induction l as [|x l IH]; simpl; [constructor|].
  now apply insert_by_sorted.
Qed.

End Ordered.

End InsertionFacts.

Lemma StronglySorted_app {A : Type} (R : A -> A -> Prop) (l1 l2 : list A) :
  StronglySorted R l1 -> StronglySorted R l2 ->
  (forall a b, In a l1 -> In b l2 -> R a b) ->
  StronglySorted R (l1 ++ l2).
Proof.
  induction 1 as [|x l1 Hl1 IH Hx]; intros H2 H12; simpl; [assumption|].
  constructor.
  - apply IH; [assumption|]. intros a b Ha Hb. apply H12; simpl; auto.
  - apply Forall_app. split; [assumption|].
    apply Forall_forall. intros b Hb. apply H12; simpl; auto.
Qed.

Lemma StronglySorted_rev {A : Type} (R : A -> A -> Prop) (l : list A) :
  StronglySorted R l -> StronglySorted (fun a b => R b a) (rev l).
Proof.
  induction 1 as [|x l Hl IH Hx]; simpl; [constructor|].
  apply StronglySorted_app; [assumption|constructor; constructor|].
  intros a b Ha [<-|[]]. apply in_rev in Ha.
  rewrite Forall_forall in Hx. now apply Hx.
Qed.

(** A sorted list stays sorted under a map that respects the order of its
    members. *)
Lemma StronglySorted_map_in {A B : Type} (R : A -> A -> Prop)
      (S : B -> B -> Prop) (f : A -> B) (l : list A) :
  (forall a b, In a l -> In b l -> R a b -> S (f a) (f b)) ->
  StronglySorted R l -> StronglySorted S (map f l).
Proof.
  intros Hf Hl. induction Hl as [|x l Hl IH Hx]; simpl; [constructor|].
  constructor.
  - apply IH. intros a b Ha Hb. apply Hf; simpl; auto.
  - apply Forall_map, Forall_forall. intros b Hb.
    rewrite Forall_forall in Hx. apply Hf; simpl; auto.
Qed.

(** ** Tags that always have a key *)






(** ** What [sorted_reverse] returns *)

Lemma map_result_Forall2 {A B : Type} (f : A -> result B) (xs : list A) :
  forall ys, map_result f xs = Ok ys -> Forall2 (fun x y => f x = Ok y) xs ys.
Proof.
  induction xs as [|x xs IH]; simpl; intros ys H.
  - injection H as <-. constructor.
  - destruct (f x) as [y|e] eqn:Hx; simpl in H; [|discriminate].
    destruct (map_result f xs) as [ys'|e]; simpl in H; [|discriminate].
    injection H as <-. constructor; auto.
Qed.

Lemma map_result_total {A B : Type} (f : A -> result B) (xs : list A) :
  Forall (fun x => exists y, f x = Ok y) xs -> exists ys, map_result f xs = Ok ys.
Proof.
  induction 1 as [|x xs [y Hy] _ [ys IH]]; simpl; [eauto|].
  rewrite Hy, IH. simpl. eauto.
Qed.

Lemma combine_keys (items : list pyval) (keys : list key) :
  Forall2 (fun x y => parse_version x = Ok y) items keys ->
  keyed_ok (combine keys items) /\ map snd (combine keys items) = items.
Proof.
  induction 1 as [|x y items keys Hxy _ [IH1 IH2]]; simpl.
  - split; [constructor|reflexivity].
  - split; [constructor; assumption|now rewrite IH2].
Qed.

Lemma keyed_ok_alternate (l : list keyed) : keyed_ok l -> keys_alternate l.
Proof.
  apply Forall_impl. intros x Hx. eapply parse_version_alternates, Hx.
Qed.

Lemma sorted_reverse_pure (tags : pyval) (items : list pyval) (keys : list key) :
  py_iter tags = Ok items ->
  map_result parse_version items = Ok keys ->
  sorted_reverse tags
  = Ok (map snd (rev (sort_by keyed_ltb (rev (combine keys items))))).
Proof.
  intros Hi Hk. unfold sorted_reverse. rewrite Hi. simpl. rewrite Hk. simpl.
  rewrite sort_lt_pure; [reflexivity|].
  apply keyed_ok_alternate, Forall_rev.
  apply combine_keys, map_result_Forall2, Hk.
Qed.

Lemma sorted_reverse_inv (tags : pyval) (st : list pyval) :
  sorted_reverse tags = Ok st ->
  exists items keys,
    py_iter tags = Ok items
    /\ map_result parse_version items = Ok keys
    /\ st = map snd (rev (sort_by keyed_ltb (rev (combine keys items)))).
Proof.
  intros H. unfold sorted_reverse in H.
  destruct (py_iter tags) as [items|e] eqn:Hi; simpl in H; [|discriminate].
  destruct (map_result parse_version items) as [keys|e] eqn:Hk;
    simpl in H; [|discriminate].
  exists items, keys. split; [reflexivity|]. split; [assumption|].
  rewrite sort_lt_pure in H; [simpl in H; congruence|].
  apply keyed_ok_alternate, Forall_rev.
  apply combine_keys, map_result_Forall2, Hk.
Qed.

(** The sort succeeds as soon as every tag has a key. *)
Lemma sorted_reverse_total (tags : pyval) (items : list pyval) :
  py_iter tags = Ok items ->
  Forall (fun t => exists k, parse_version t = Ok k) items ->
  exists st, sorted_reverse tags = Ok st.
Proof.
  intros Hi Hk. destruct (map_result_total _ _ Hk) as [keys Hkeys].
  rewrite (sorted_reverse_pure tags items keys Hi Hkeys). eauto.
Qed.

Lemma keyed_ltb_tag_ltb (x y : keyed) :
  parse_version (snd x) = Ok (fst x) -> parse_version (snd y) = Ok (fst y) ->
  keyed_ltb x y = tag_ltb (snd x) (snd y).
Proof. intros Hx Hy. unfold tag_ltb, keyed_ltb. now rewrite Hx, Hy. Qed.

Lemma keyed_has_key (k : key) (x : keyed) :
  parse_version (snd x) = Ok (fst x) ->
  has_key k (snd x) = key_eqb (fst x) k.
Proof. intros Hx. unfold has_key. now rewrite Hx. Qed.

Lemma key_eqb_eq (a b : key) : key_eqb a b = true <-> a = b.
Proof.
  unfold key_eqb. rewrite <- key_compare_eq.
  destruct (key_compare a b); split; congruence.
Qed.

Lemma filter_map_snd (p : pyval -> bool) (l : list keyed) :
  filter p (map snd l) = map snd (filter (fun x => p (snd x)) l).
Proof.
  induction l as [|x l IH]; simpl; [reflexivity|].
  destruct (p (snd x)); simpl; now rewrite IH.
Qed.

Section SortedReverse.

Variables (tags : pyval) (items st : list pyval).
Hypothesis Hitems : py_iter tags = Ok items.
Hypothesis Hsorted : sorted_reverse tags = Ok st.

Lemma sorted_reverse_keys :
  exists keys,
    keyed_ok (combine keys items)
    /\ map snd (combine keys items) = items
    /\ st = map snd (rev (sort_by keyed_ltb (rev (combine keys items)))).
Proof.
  destruct (sorted_reverse_inv _ _ Hsorted) as (items' & keys & Hi & Hk & Hst).
  rewrite Hitems in Hi. injection Hi as <-.
  exists keys.
  destruct (combine_keys _ _ (map_result_Forall2 _ _ _ Hk)) as [H1 H2].
  auto.
Qed.

(** The sorted list holds the tags that came in, each as often. *)
Lemma sorted_reverse_perm : Permutation items st.
Proof.
  destruct sorted_reverse_keys as (keys & Hok & Hsnd & ->).
  rewrite <- Hsnd at 1. apply Permutation_map.
  rewrite <- Permutation_rev, <- sort_by_perm. apply Permutation_rev.
Qed.

(** No tag is followed by one with a greater key. *)
Lemma sorted_reverse_descending :
  StronglySorted (fun a b => tag_ltb a b = false) st.
Proof.
  destruct sorted_reverse_keys as (keys & Hok & Hsnd & ->).
  set (l := combine keys items) in *.
  assert (Hs : keyed_ok (rev (sort_by keyed_ltb (rev l)))).
  { apply Forall_rev, sort_by_Forall, Forall_rev, Hok. }
  eapply StronglySorted_map_in;
    [|apply StronglySorted_rev, sort_by_sorted].
  - intros a b Ha Hb Hab. unfold keyed_ok in Hs. rewrite Forall_forall in Hs.
    rewrite <- keyed_ltb_tag_ltb by auto. exact Hab.
  - intros x y. apply key_ltb_asym.
  - intros x y z. apply key_ltb_negtrans.
Qed.

(** Tags of one key keep the order they came in. *)
Lemma sorted_reverse_stable (k : key) :
  filter (has_key k) st = filter (has_key k) items.
Proof.
  destruct sorted_reverse_keys as (keys & Hok & Hsnd & ->).
  set (l := combine keys items) in *.
  assert (Hs : keyed_ok (rev (sort_by keyed_ltb (rev l)))).
  { apply Forall_rev, sort_by_Forall, Forall_rev, Hok. }
  rewrite <- Hsnd, !filter_map_snd. f_equal.
  rewrite (filter_ext_in _ (fun x => key_eqb (fst x) k)).
  2:{ intros x Hx. apply keyed_has_key.
      unfold keyed_ok in Hs. rewrite Forall_forall in Hs. auto. }
  rewrite (filter_ext_in (fun x => has_key k (snd x))
                         (fun x => key_eqb (fst x) k) l).
  2:{ intros x Hx. apply keyed_has_key.
      unfold keyed_ok in Hok. rewrite Forall_forall in Hok. auto. }
  apply sort_by_rev_filter.
  intros x y Hx Hy. apply key_eqb_eq in Hx, Hy. unfold keyed_ltb.
  rewrite Hx, Hy. apply key_ltb_irrefl.
Qed.

End SortedReverse.

(** ** Types along a key *)




Lemma key_trichotomy (a b : key) :
  key_ltb a b = true \/ a = b \/ key_ltb b a = true.
Proof.
  unfold key_ltb. rewrite (key_compare_antisym a b).
  destruct (key_compare a b) eqn:E; simpl; auto.
  right; left. now apply key_compare_eq.
Qed.






(** ** Keys with the same texts compare by their numbers *)

Lemma key_ltb_numbers (a : key) :
  forall (text_next : bool) (b : key),
    alternates_from text_next a = true ->
    alternates_from text_next b = true ->
    texts a = texts b ->
    key_ltb a b = Zlist_ltb (numbers a) (numbers b).
Proof.
  induction a as [|x a IH]; intros t b Ha Hb Ht.
  - destruct b as [|[m|s] b]; simpl in *; try reflexivity; discriminate.
  - destruct b as [|y b].
    + destruct x; simpl in *; try reflexivity; discriminate.
    + destruct x as [n|s], y as [m|s'], t; simpl in Ha, Hb, Ht; try discriminate.
      * specialize (IH _ _ Ha Hb Ht).
        unfold key_ltb, key_compare in *. cbn [list_compare segment_compare].
        cbn [numbers Zlist_ltb].
        destruct (Z.compare_spec n m) as [->|Hlt|Hgt].
        -- now rewrite Z.eqb_refl.
        -- replace (n =? m)%Z with false by (symmetry; apply Z.eqb_neq; lia).
           symmetry. apply Z.ltb_lt. assumption.
        -- replace (n =? m)%Z with false by (symmetry; apply Z.eqb_neq; lia).
           symmetry. apply Z.ltb_ge. lia.
      * injection Ht as -> Ht. specialize (IH _ _ Ha Hb Ht).
        unfold key_ltb, key_compare in *. cbn [list_compare segment_compare].
        rewrite (proj2 (string_compare_eq s' s') eq_refl). exact IH.
Qed.

Lemma tag_ltb_numbers (parts : list string) (a b : pyval) :
  (exists k, parse_version a = Ok k /\ texts k = parts) ->
  (exists k, parse_version b = Ok k /\ texts k = parts) ->
  tag_ltb a b = Zlist_ltb (tag_numbers a) (tag_numbers b).
Proof.
  intros (ka & Ha & Ta) (kb & Hb & Tb).
  unfold tag_ltb, tag_numbers. rewrite Ha, Hb.
  apply (key_ltb_numbers ka true);
    try (eapply parse_version_alternates; eassumption).
  congruence.
Qed.

Lemma StronglySorted_pair {A : Type} (R : A -> A -> Prop) (a b : A)
      (l1 l2 l3 : list A) :
  StronglySorted R (l1 ++ a :: l2 ++ b :: l3) -> R a b.
Proof.
  induction l1 as [|x l1 IH]; simpl; intros H; inversion H; subst; auto.
  match goal with Hf : Forall (R a) _ |- _ => rewrite Forall_forall in Hf; apply Hf end.
  apply in_elt.
Qed.

(** C1.  Tags whose keys have the same non-numeric parts come out of the
    sort in descending order of the integers of their digit runs, compared
    one after the other; ["1.2.0"; "1.10.0"; "1.9.0"] becomes
    ["1.10.0"; "1.9.0"; "1.2.0"], and "v2" never comes out in front of
    "v10", although "v10" is the smaller string. *)
Theorem sort_orders_digit_runs_as_integers :
  (forall (tags parts : list string),
      (forall tag, In tag tags ->
                   exists k, parse_version (VStr tag) = Ok k /\ texts k = parts) ->
      exists st,
        sorted_reverse (VList (map VStr tags)) = Ok st
        /\ Permutation (map VStr tags) st
        /\ StronglySorted
             (fun a b => Zlist_ltb (tag_numbers a) (tag_numbers b) = false) st)
  /\ sorted_reverse (VList [VStr "1.2.0"; VStr "1.10.0"; VStr "1.9.0"])
     = Ok [VStr "1.10.0"; VStr "1.9.0"; VStr "1.2.0"]
  /\ sorted_reverse (VList [VStr "v2"; VStr "v10"]) = Ok [VStr "v10"; VStr "v2"]
  /\ sorted_reverse (VList [VStr "v10"; VStr "v2"]) = Ok [VStr "v10"; VStr "v2"]
  /\ (forall (tags st : list pyval),
         sorted_reverse (VList tags) = Ok st ->
         forall l1 l2 l3, st <> l1 ++ VStr "v2" :: l2 ++ VStr "v10" :: l3)
  /\ String.ltb "v10" "v2" = true.
Proof.
  split; [|repeat split].
  - intros tags parts Hparts.
    assert (Hkeys : Forall (fun t => exists k, parse_version t = Ok k)
                           (map VStr tags)).
    { apply Forall_map, Forall_forall. intros t Ht.
      destruct (Hparts t Ht) as (k & Hk & _). eauto. }
    destruct (sorted_reverse_total (VList (map VStr tags)) _ eq_refl Hkeys)
      as [st Hst].
    pose proof (sorted_reverse_perm (VList (map VStr tags)) _ _ eq_refl Hst)
      as Hperm.
    exists st. split; [assumption|]. split; [assumption|].
    rewrite <- (map_id st).
    eapply StronglySorted_map_in;
      [|exact (sorted_reverse_descending (VList (map VStr tags)) _ _
                                         eq_refl Hst)].
    intros a b Ha Hb Hab. simpl in Hab.
    assert (Hin : forall x, In x st ->
                            exists k, parse_version x = Ok k /\ texts k = parts).
    { intros x Hx. apply (Permutation_in _ (Permutation_sym Hperm)) in Hx.
      apply in_map_iff in Hx as (t & <- & Ht). auto. }
    rewrite <- (tag_ltb_numbers parts) by auto. exact Hab.
  - intros tags st Hst l1 l2 l3 ->.
    pose proof (sorted_reverse_descending (VList tags) tags _ eq_refl Hst)
      as Hs.
    apply StronglySorted_pair in Hs. discriminate Hs.
Qed.

Lemma sort_orders_digit_runs_as_integers_witness :
  exists st,
    sorted_reverse (VList (map VStr ["1.2.0"; "1.10.0"; "1.9.0"])) = Ok st
    /\ Permutation (map VStr ["1.2.0"; "1.10.0"; "1.9.0"]) st
    /\ StronglySorted
         (fun a b => Zlist_ltb (tag_numbers a) (tag_numbers b) = false) st.
Proof.
  apply (proj1 sort_orders_digit_runs_as_integers
               ["1.2.0"; "1.10.0"; "1.9.0"] [""; "."; "."; ""]).
  intros tag [<-|[<-|[<-|[]]]]; eexists; split; reflexivity.
Defined.

(** C8.  Among the tags of one key the sort changes nothing: they come out
    in the order they came in.  "1" and "01" have the same key and stay as
    they were, whichever comes first. *)
Theorem sort_keeps_equal_keys_in_order :
  (forall (tags st : list pyval) (k : key),
      sorted_reverse (VList tags) = Ok st ->
      filter (has_key k) st = filter (has_key k) tags)
  /\ parse_version (VStr "1") = Ok [SText ""; SInt 1; SText ""]
  /\ parse_version (VStr "01") = Ok [SText ""; SInt 1; SText ""]
  /\ sorted_reverse (VList [VStr "1"; VStr "01"]) = Ok [VStr "1"; VStr "01"]
  /\ sorted_reverse (VList [VStr "01"; VStr "1"]) = Ok [VStr "01"; VStr "1"].
Proof.
  split; [|repeat split].
  intros tags st k Hst.
  exact (sorted_reverse_stable (VList tags) tags st eq_refl Hst k).
Qed.

Lemma sort_keeps_equal_keys_in_order_witness :
  filter (has_key [SText ""; SInt 1; SText ""])
         [VStr "2"; VStr "1"; VStr "01"; VStr "0"]
  = filter (has_key [SText ""; SInt 1; SText ""])
           [VStr "1"; VStr "2"; VStr "01"; VStr "0"].
Proof.
  apply (proj1 sort_keeps_equal_keys_in_order
               [VStr "1"; VStr "2"; VStr "01"; VStr "0"]).
  reflexivity.
Defined.

(** ** One fetch *)

Lemma for_each_print {A : Type} (f : A -> string) (l : list A) :
  forall h, for_each l (fun x => print (f x)) h
            = (h ++ map (fun x => Print (f x)) l, Ok tt).
Proof.
  induction l as [|x l IH]; intros h; simpl.
  - now rewrite app_nil_r.
  - unfold bind, print, emit. rewrite IH, <- app_assoc. reflexivity.
Qed.

(** The loop goes on after a body that returns. *)
Lemma for_each_step {A : Type} (body : A -> M unit) (x : A) (xs : list A)
      (h h' : list event) :
  body x h = (h', Ok tt) -> for_each (x :: xs) body h = for_each xs body h'.
Proof. intros H. simpl. unfold bind. now rewrite H. Qed.

(** The loop stops at a body that raises. *)
Lemma for_each_raise {A : Type} (body : A -> M unit) (x : A) (xs : list A)
      (h h' : list event) (e : exn) :
  body x h = (h', Raise e) -> for_each (x :: xs) body h = (h', Raise e).
Proof. intros H. simpl. unfold bind. now rewrite H. Qed.

Section OneFetch.

Variable w : world.
Variables registry image max_tags : pyval.
Variable h : list event.
Variable r : completed.

Hypothesis Hspawn :
  spawn w (h ++ [Print (fetching_line w registry image)])
        (skopeo_argv w registry image) = Some r.

Lemma fetch_tags_error :
  returncode r <> 0%Z ->
  fetch_tags w registry image max_tags h
  = (h ++ [Print (fetching_line w registry image);
           Run (skopeo_argv w registry image);
           Print (error_line w registry image (stderr r))],
     Ok tt).
Proof.
  intros Hrc. apply Z.eqb_neq in Hrc.
  unfold fetch_tags, bind, try_except, subprocess_run, print, emit.
  unfold fetching_line in Hspawn. rewrite Hspawn, Hrc. cbn [negb andb].
  unfold ret. rewrite <- !app_assoc. reflexivity.
Qed.

Section Answered.

Variables response tags : pyval.
Hypothesis Hrc : returncode r = 0%Z.
Hypothesis Hyaml : yaml w (stdout r) = YamlValue response.
Hypothesis Htags : getitem response "Tags" = Ok tags.

Lemma fetch_tags_no_tags :
  truthy tags = false ->
  fetch_tags w registry image max_tags h
  = (h ++ [Print (fetching_line w registry image);
           Run (skopeo_argv w registry image);
           Print (no_tags_line w registry image)],
     Ok tt).
Proof.
  intros Hfalse.
  unfold fetch_tags, bind, try_except, subprocess_run, yaml_safe_load,
    print, emit, lift.
  unfold fetching_line in Hspawn. rewrite Hspawn, Hrc. cbn [Z.eqb negb andb].
  rewrite Hyaml. unfold ret. rewrite Htags, Hfalse. cbn [negb].
  rewrite <- !app_assoc. reflexivity.
Qed.

Lemma fetch_tags_listing (st shown : list pyval) :
  truthy tags = true ->
  sorted_reverse tags = Ok st ->
  slice_to st max_tags = Ok shown ->
  fetch_tags w registry image max_tags h
  = (h ++ [Print (fetching_line w registry image);
           Run (skopeo_argv w registry image);
           Print (latest_line w max_tags image)]
       ++ map (fun tag => Print (py_str w tag)) shown
       ++ [Print ""],
     Ok tt).
Proof.
  intros Htrue Hst Hshown.
  unfold fetch_tags, bind, try_except, subprocess_run, yaml_safe_load,
    print, emit, lift.
  unfold fetching_line in Hspawn. rewrite Hspawn, Hrc. cbn [Z.eqb negb andb].
  rewrite Hyaml. unfold ret. rewrite Htags, Htrue. cbn [negb].
  rewrite Hst, Hshown.
  pose proof (for_each_print (py_str w) shown) as Hp.
  unfold print, emit in Hp. rewrite Hp, <- !app_assoc. reflexivity.
Qed.

End Answered.

End OneFetch.




Lemma firstn_min {A : Type} (n : nat) (l : list A) :
  firstn (Nat.min n (List.length l)) l = firstn n l.
Proof.
  destruct (Nat.le_gt_cases n (List.length l)) as [Hle|Hgt].
  - now rewrite Nat.min_l.
  - rewrite Nat.min_r by lia. rewrite firstn_all.
    symmetry. apply firstn_all2. lia.
Qed.

(** C7.  For a non-empty list of tags and a positive [max], the fetch
    prints the header and then the first [min(max, length)] tags of the
    sorted list, in that order and one per line, and a blank line; with
    [max = 2] and the tags "1.2.0", "1.10.0", "1.9.0" these are "1.10.0"
    and "1.9.0". *)
Theorem listing_is_the_first_max_sorted_tags :
  (forall (w : world) (registry image : pyval) (h : list event)
          (r : completed) (response : pyval) (items st : list pyval) (n : Z),
      spawn w (h ++ [Print (fetching_line w registry image)])
            (skopeo_argv w registry image) = Some r ->
      returncode r = 0%Z ->
      yaml w (stdout r) = YamlValue response ->
      getitem response "Tags" = Ok (VList items) ->
      items <> [] ->
      sorted_reverse (VList items) = Ok st ->
      (0 < n)%Z ->
      fetch_tags w registry image (VInt n) h
      = (h ++ [Print (fetching_line w registry image);
               Run (skopeo_argv w registry image);
               Print ("Latest " ^ string_of_Z n ^ " tags for "
                      ^ py_str w image ^ ":")]
           ++ map (fun tag => Print (py_str w tag))
                  (firstn (Nat.min (Z.to_nat n) (List.length st)) st)
           ++ [Print ""],
         Ok tt))
  /\ (forall (w : world) (registry image : pyval) (h : list event)
             (r : completed) (response : pyval),
         spawn w (h ++ [Print (fetching_line w registry image)])
               (skopeo_argv w registry image) = Some r ->
         returncode r = 0%Z ->
         yaml w (stdout r) = YamlValue response ->
         getitem response "Tags"
         = Ok (VList [VStr "1.2.0"; VStr "1.10.0"; VStr "1.9.0"]) ->
         fetch_tags w registry image (VInt 2) h
         = (h ++ [Print (fetching_line w registry image);
                  Run (skopeo_argv w registry image);
                  Print ("Latest 2 tags for " ^ py_str w image ^ ":");
                  Print "1.10.0"; Print "1.9.0"; Print ""],
            Ok tt)).
Proof.
  split.
  - intros w registry image h r response items st n
           Hspawn Hrc Hyaml Htags Hne Hst Hn.
    rewrite firstn_min.
    apply (fetch_tags_listing w registry image (VInt n) h r Hspawn
                              response (VList items) Hrc Hyaml Htags st).
    + destruct items; [contradiction|reflexivity].
    + exact Hst.
    + simpl. unfold slice_to_int.
      replace (n <? 0)%Z with false by (symmetry; apply Z.ltb_ge; lia).
      reflexivity.
  - intros w registry image h r response Hspawn Hrc Hyaml Htags.
    rewrite (fetch_tags_listing w registry image (VInt 2) h r Hspawn
                                response _ Hrc Hyaml Htags
                                [VStr "1.10.0"; VStr "1.9.0"; VStr "1.2.0"]
                                [VStr "1.10.0"; VStr "1.9.0"])
      by reflexivity.
    reflexivity.
Qed.

(** C10.  For a non-empty list of tags: with [max = 0] the fetch prints the
    "Latest 0 tags" header and at once the blank line; with [max = -k] it
    prints the sorted tags without the last [k] of them (none when there
    are no more than [k]).  [main] passes the [max] of the configuration on
    as it is. *)
Theorem zero_and_negative_max
        (w : world) (registry image : pyval) (h : list event)
        (r : completed) (response : pyval) (items st : list pyval) :
  spawn w (h ++ [Print (fetching_line w registry image)])
        (skopeo_argv w registry image) = Some r ->
  returncode r = 0%Z ->
  yaml w (stdout r) = YamlValue response ->
  getitem response "Tags" = Ok (VList items) ->
  items <> [] ->
  sorted_reverse (VList items) = Ok st ->
  fetch_tags w registry image (VInt 0) h
  = (h ++ [Print (fetching_line w registry image);
           Run (skopeo_argv w registry image);
           Print ("Latest 0 tags for " ^ py_str w image ^ ":");
           Print ""],
     Ok tt)
  /\ (forall k : Z,
         (0 < k)%Z ->
         let shown := firstn (List.length st - Z.to_nat k) st in
         let dropped := skipn (List.length st - Z.to_nat k) st in
         fetch_tags w registry image (VInt (- k)) h
         = (h ++ [Print (fetching_line w registry image);
                  Run (skopeo_argv w registry image);
                  Print ("Latest " ^ string_of_Z (- k) ^ " tags for "
                         ^ py_str w image ^ ":")]
              ++ map (fun tag => Print (py_str w tag)) shown
              ++ [Print ""],
            Ok tt)
         /\ st = shown ++ dropped
         /\ List.length dropped = Nat.min (Z.to_nat k) (List.length st))
  /\ (forall (kvs : list (pyval * pyval)) (n : Z),
         lookup "max" kvs = Some (VInt n) ->
         dict_get (VDict kvs) "max" (VInt 3) = Ok (VInt n)).
Proof.
  intros Hspawn Hrc Hyaml Htags Hne Hst.
  assert (Htrue : truthy (VList items) = true).
  { destruct items; [contradiction|reflexivity]. }
  split; [|split].
  - apply (fetch_tags_listing w registry image (VInt 0) h r Hspawn
                              response (VList items) Hrc Hyaml Htags st []);
      auto.
  - intros k Hk shown dropped. split; [|split].
    + apply (fetch_tags_listing w registry image (VInt (- k)) h r Hspawn
                                response (VList items) Hrc Hyaml Htags st);
        auto.
      simpl. unfold slice_to_int.
      replace (- k <? 0)%Z with true by (symmetry; apply Z.ltb_lt; lia).
      unfold shown. do 2 f_equal. lia.
    + symmetry. apply firstn_skipn.
    + unfold dropped. rewrite length_skipn. lia.
  - intros kvs n Hmax. simpl. now rewrite Hmax.
Qed.

(** ** The whole run *)

Lemma runs_app (a b : list event) : runs (a ++ b) = runs a ++ runs b.
Proof.
  induction a as [|[argv|path|line] a IH]; simpl; rewrite ?IH; reflexivity.
Qed.

Lemma runs_prints {A : Type} (f : A -> string) (l : list A) :
  runs (map (fun x => Print (f x)) l) = [].
Proof. induction l; simpl; auto. Qed.

Section Run.

Variable w : world.


Lemma main_tool_unavailable :
  spawn w [] ["which"; "skopeo"] = None ->
  main w [] = ([Run ["which"; "skopeo"]], Raise OSError).
Proof.
  intros Hs. unfold main, bind, check_command_exists, bind, subprocess_run.
  now rewrite Hs.
Qed.

Lemma main_tool_found (r : completed) :
  spawn w [] ["which"; "skopeo"] = Some r -> returncode r = 0%Z ->
  main w [] = after_check w [Run ["which"; "skopeo"]].
Proof.
  intros Hs Hrc. apply Z.eqb_eq in Hrc.
  unfold main, bind at 1 2, check_command_exists, bind, subprocess_run.
  rewrite Hs. cbn [andb]. unfold ret. now rewrite Hrc.
Qed.



Lemma after_check_loaded (h : list event) (text : string) (config : pyval) :
  file w h "config.yaml" = Content text -> yaml w text = YamlValue config ->
  after_check w h = after_config w config (h ++ [Open "config.yaml"]).
Proof.
  intros Hf Hy.
  unfold after_check, bind, load_config, try_except, bind, open_read,
    yaml_safe_load.
  now rewrite Hf, Hy.
Qed.

(** *** Computations only add events *)















End Run.

Lemma run_script_main (w : world) :
  run_script w = (fst (main w []), exit_code (snd (main w []))).
Proof. unfold run_script. now destruct (main w []). Qed.





(** ** Every pair is fetched *)

Section AllPairs.

Variable w : world.
Variable max_tags : pyval.

Hypothesis max_sliceable : sliceable max_tags = true.
Hypothesis tool_benign :
  forall h registry image,
    exists a, spawn w h (skopeo_argv w registry image) = Some a /\ benign w a.

Lemma slice_to_sliceable (st : list pyval) :
  exists shown, slice_to st max_tags = Ok shown.
Proof.
  destruct max_tags; try discriminate; simpl; eauto.
Qed.

Lemma fetch_tags_benign (registry image : pyval) (h : list event) :
  exists t,
    fetch_tags w registry image max_tags h = (h ++ t, Ok tt)
    /\ runs t = [skopeo_argv w registry image].
Proof.
  destruct (tool_benign (h ++ [Print (fetching_line w registry image)])
                        registry image) as (a & Hs & Hb).
  destruct Hb as [Hrc|(response & tags & Hy & Ht & Hcase)].
  - rewrite (fetch_tags_error w registry image max_tags h a Hs Hrc).
    eexists. split; reflexivity.
  - destruct (Z.eq_dec (returncode a) 0) as [Hrc|Hrc].
    2:{ rewrite (fetch_tags_error w registry image max_tags h a Hs Hrc).
        eexists. split; reflexivity. }
    destruct (truthy tags) eqn:Htruthy.
    + destruct Hcase as [Hfalse|[st Hst]]; [discriminate|].
      destruct (slice_to_sliceable st) as [shown Hshown].
      rewrite (fetch_tags_listing w registry image max_tags h a Hs
                                  response tags Hrc Hy Ht st shown
                                  Htruthy Hst Hshown).
      eexists. split; [reflexivity|].
      cbn [runs app]. rewrite runs_app, runs_prints. reflexivity.
    + rewrite (fetch_tags_no_tags w registry image max_tags h a Hs
                                  response tags Hrc Hy Ht Htruthy).
      eexists. split; reflexivity.
Qed.

Lemma images_loop (registry : pyval) (images : list pyval) :
  forall h,
    exists t,
      for_each images (fun image => fetch_tags w registry image max_tags) h
      = (h ++ t, Ok tt)
      /\ runs t = map (skopeo_argv w registry) images.
Proof.
  induction images as [|image images IH]; intros h.
  - exists []. simpl. now rewrite app_nil_r.
  - destruct (fetch_tags_benign registry image h) as (t1 & H1 & R1).
    destruct (IH (h ++ t1)) as (t2 & H2 & R2).
    exists (t1 ++ t2). split.
    + rewrite (for_each_step
                 (fun image => fetch_tags w registry image max_tags)
                 image images h (h ++ t1) H1), H2.
      now rewrite app_assoc.
    + rewrite runs_app, R1, R2. reflexivity.
Qed.

Lemma registries_loop (entries : list pyval) :
  forall (pairs : list (list (pyval * pyval))) (h : list event),
    map_result entry_pairs entries = Ok pairs ->
    exists t,
      for_each entries (fetch_registry w max_tags) h = (h ++ t, Ok tt)
      /\ runs t = map (pair_argv w) (List.concat pairs).
Proof.
  induction entries as [|entry entries IH]; intros pairs h Hp.
  - injection Hp as <-. exists []. simpl. now rewrite app_nil_r.
  - cbn [map_result] in Hp.
    destruct (entry_pairs entry) as [ps|e] eqn:He; cbn [rbind] in Hp;
      [|discriminate].
    destruct (map_result entry_pairs entries) as [pss|e] eqn:Hrest;
      cbn [rbind] in Hp; [|discriminate].
    injection Hp as <-.
    unfold entry_pairs in He.
    destruct (getitem entry "registry") as [registry|e] eqn:Hr;
      cbn [rbind] in He; [|discriminate].
    destruct (rbind (getitem entry "images") py_iter) as [images|e] eqn:Hi;
      cbn [rbind] in He; [|discriminate].
    injection He as <-.
    destruct (images_loop registry images h) as (t1 & H1 & R1).
    destruct (IH pss (h ++ t1) eq_refl) as (t2 & H2 & R2).
    exists (t1 ++ t2). split.
    + rewrite (for_each_step (fetch_registry w max_tags) entry entries
                             h (h ++ t1)).
      * rewrite H2. now rewrite app_assoc.
      * unfold fetch_registry, bind, lift. now rewrite Hr, Hi.
    + rewrite runs_app, R1, R2. cbn [List.concat].
      rewrite map_app, map_map. reflexivity.
Qed.

End AllPairs.





(** A tag made of a superscript digit has no key: [isdigit] accepts it and
    [int] does not, and the [ValueError] ends the run. *)
Lemma superscript_tag_has_no_key :
  re_split Broken.superscript_two = [Broken.superscript_two]
  /\ isdigit Broken.superscript_two = true
  /\ parse_version (VStr Broken.superscript_two) = Raise ValueError
  /\ main Broken.superscript_tag []
     = ([Run ["which"; "skopeo"]; Open "config.yaml";
         Print "Fetching tags for a/one from quay.io...";
         Run ["skopeo"; "list-tags"; "--no-creds"; "docker://quay.io/a/one"]],
        Raise ValueError).
Proof. repeat split. Qed.



Lemma listing_is_the_first_max_sorted_tags_witness :
  fetch_tags Sample.w (VStr "quay.io") (VStr "a/three") (VInt 2) []
  = ([Print "Fetching tags for a/three from quay.io...";
      Run ["skopeo"; "list-tags"; "--no-creds"; "docker://quay.io/a/three"];
      Print "Latest 2 tags for a/three:";
      Print "1.10.0"; Print "1.9.0"; Print ""],
     Ok tt).
Proof.
  apply (proj1 listing_is_the_first_max_sorted_tags
               Sample.w (VStr "quay.io") (VStr "a/three") []
               (Sample.answer "three")
               (Sample.tags_of ["1.2.0"; "1.10.0"; "1.9.0"])
               [VStr "1.2.0"; VStr "1.10.0"; VStr "1.9.0"]
               [VStr "1.10.0"; VStr "1.9.0"; VStr "1.2.0"] 2%Z);
    try reflexivity.
  discriminate.
Defined.

Lemma zero_and_negative_max_witness :
  fetch_tags Sample.w (VStr "quay.io") (VStr "a/three") (VInt 0) []
  = ([Print "Fetching tags for a/three from quay.io...";
      Run ["skopeo"; "list-tags"; "--no-creds"; "docker://quay.io/a/three"];
      Print "Latest 0 tags for a/three:"; Print ""],
     Ok tt)
  /\ fetch_tags Sample.w (VStr "quay.io") (VStr "a/three") (VInt (-1)) []
     = ([Print "Fetching tags for a/three from quay.io...";
         Run ["skopeo"; "list-tags"; "--no-creds"; "docker://quay.io/a/three"];
         Print "Latest -1 tags for a/three:";
         Print "1.10.0"; Print "1.9.0"; Print ""],
        Ok tt).
Proof.
  destruct (zero_and_negative_max
              Sample.w (VStr "quay.io") (VStr "a/three") []
              (Sample.answer "three")
              (Sample.tags_of ["1.2.0"; "1.10.0"; "1.9.0"])
              [VStr "1.2.0"; VStr "1.10.0"; VStr "1.9.0"]
              [VStr "1.10.0"; VStr "1.9.0"; VStr "1.2.0"]
              eq_refl eq_refl eq_refl eq_refl ltac:(discriminate) eq_refl)
    as (Hzero & Hneg & _).
  split; [exact Hzero|].
  exact (proj1 (Hneg 1%Z eq_refl)).
Defined.

(** * Further properties of the code *)

(** ** The split and the key *)

Lemma parts_ok_length (ps : list string) :
  forall text_next,
    parts_ok text_next ps = true ->
    Nat.even (List.length ps) = negb text_next.
Proof.
  induction ps as [|p ps IH]; intros b H.
  - simpl in *. now destruct b.
  - cbn [parts_ok] in H. cbn [List.length]. rewrite Nat.even_succ, <- Nat.negb_even.
    destruct b; apply andb_prop in H as [_ H]; now rewrite (IH _ H).
Qed.

(** X1.  [re.split] cuts the tag without losing a character: the parts put
    together again are the tag; there is an odd number of them, texts
    without a decimal digit taking turns with non-empty runs of decimal
    digits, and the runs are maximal. *)
Theorem re_split_partitions_the_tag (s : string) :
  join (re_split s) = s
  /\ Nat.odd (List.length (re_split s)) = true
  /\ parts_ok true (re_split s) = true
  /\ runs_maximal (tl (re_split s)) = true.
Proof.
  split; [apply re_split_join|]. split; [|split].
  - rewrite <- Nat.negb_even, (parts_ok_length _ true (re_split_parts_ok s)).
    reflexivity.
  - apply re_split_parts_ok.
  - apply re_split_runs_maximal.
Qed.

(** *** Leading zeros *)








(** ** The order of keys and the sort *)

Lemma key_ltb_trans (a b c : key) :
  key_ltb a b = true -> key_ltb b c = true -> key_ltb a c = true.
Proof.
  unfold key_ltb. intros Hab Hbc.
  destruct (key_compare a b) eqn:Eab; try discriminate.
  destruct (key_compare b c) eqn:Ebc; try discriminate.
  now rewrite (key_compare_trans a b c Lt Eab Ebc).
Qed.

(** X3.  On the keys of tags [<] is a strict total order: no key is below
    itself, [<] never holds both ways, it is transitive, and two keys
    neither of which is below the other are the same key. *)
Theorem key_order_is_strict_and_total
        (tag1 tag2 tag3 : pyval) (k1 k2 k3 : key) :
  parse_version tag1 = Ok k1 ->
  parse_version tag2 = Ok k2 ->
  parse_version tag3 = Ok k3 ->
  tuple_lt k1 k1 = Ok false
  /\ (tuple_lt k1 k2 = Ok true -> tuple_lt k2 k1 = Ok false)
  /\ (tuple_lt k1 k2 = Ok true -> tuple_lt k2 k3 = Ok true ->
      tuple_lt k1 k3 = Ok true)
  /\ (tuple_lt k1 k2 = Ok false -> tuple_lt k2 k1 = Ok false -> k1 = k2).
Proof.
  intros H1 H2 H3.
  rewrite (parsed_keys_comparable _ _ _ _ H1 H1),
    (parsed_keys_comparable _ _ _ _ H1 H2),
    (parsed_keys_comparable _ _ _ _ H2 H1),
    (parsed_keys_comparable _ _ _ _ H2 H3),
    (parsed_keys_comparable _ _ _ _ H1 H3).
  split; [|split; [|split]].
  - now rewrite key_ltb_irrefl.
  - intros H. injection H as H. now rewrite (key_ltb_asym _ _ H).
  - intros Ha Hb. injection Ha as Ha. injection Hb as Hb.
    now rewrite (key_ltb_trans _ _ _ Ha Hb).
  - intros Ha Hb. injection Ha as Ha. injection Hb as Hb.
    destruct (key_trichotomy k1 k2) as [H|[H|H]]; congruence.
Qed.

Lemma key_order_is_strict_and_total_witness :
  tuple_lt [SText "v"; SInt 2; SText ""] [SText "v"; SInt 10; SText "-rc"]
  = Ok true.
Proof.
  exact (proj1 (proj2 (proj2
           (key_order_is_strict_and_total
              (VStr "v2") (VStr "v10") (VStr "v10-rc") _ _ _
              eq_refl eq_refl eq_refl)))
           eq_refl eq_refl).
Defined.

Lemma sorted_reverse_all_keyed (tags : pyval) (st : list pyval) :
  sorted_reverse tags = Ok st ->
  Forall (fun t => exists k, parse_version t = Ok k) st.
Proof.
  intros H. destruct (sorted_reverse_inv _ _ H) as (items & keys & Hi & Hk & ->).
  apply Forall_map.
  assert (Hok : keyed_ok (rev (sort_by keyed_ltb (rev (combine keys items))))).
  { apply Forall_rev, sort_by_Forall, Forall_rev.
    apply combine_keys, map_result_Forall2, Hk. }
  eapply Forall_impl; [|exact Hok]. intros x Hx. exists (fst x). exact Hx.
Qed.

(** X4.  Whatever the tags are, when the sort returns, its result holds
    the tags that came in, each as often as it came, every one of them has
    a key, and no tag is followed, anywhere later in the list, by a tag
    with a greater key. *)
Theorem sorted_tags_are_a_descending_permutation
        (tags : pyval) (items st : list pyval) :
  py_iter tags = Ok items ->
  sorted_reverse tags = Ok st ->
  Permutation items st
  /\ Forall (fun t => exists k, parse_version t = Ok k) st
  /\ StronglySorted (fun a b => tag_ltb a b = false) st.
Proof.
  intros Hi Hs. split; [|split].
  - exact (sorted_reverse_perm tags items st Hi Hs).
  - exact (sorted_reverse_all_keyed tags st Hs).
  - exact (sorted_reverse_descending tags items st Hi Hs).
Qed.

Lemma sorted_tags_are_a_descending_permutation_witness :
  Permutation [VStr "1.0"; VStr "latest"; VStr "1.10"; VStr "v2"]
              [VStr "v2"; VStr "latest"; VStr "1.10"; VStr "1.0"]
  /\ Forall (fun t => exists k, parse_version t = Ok k)
            [VStr "v2"; VStr "latest"; VStr "1.10"; VStr "1.0"]
  /\ StronglySorted (fun a b => tag_ltb a b = false)
                    [VStr "v2"; VStr "latest"; VStr "1.10"; VStr "1.0"].
Proof.
  exact (sorted_tags_are_a_descending_permutation
           (VList [VStr "1.0"; VStr "latest"; VStr "1.10"; VStr "v2"])
           _ _ eq_refl eq_refl).
Defined.

(** *** Sorting what is sorted *)

Lemma sort_by_sorted_id {A : Type} (ltb : A -> A -> bool) (l : list A) :
  StronglySorted (fun a b => ltb b a = false) l -> sort_by ltb l = l.
Proof.
  induction 1 as [|x l Hl IH Hx]; [reflexivity|].
  cbn [sort_by]. rewrite IH. destruct l as [|y l]; [reflexivity|].
  cbn [insert_by]. inversion Hx as [|? ? Hy _]; subst. now rewrite Hy.
Qed.

Lemma StronglySorted_of_map {A B : Type} (S : B -> B -> Prop) (f : A -> B)
      (l : list A) :
  StronglySorted S (map f l) -> StronglySorted (fun a b => S (f a) (f b)) l.
Proof.
  induction l as [|x l IH]; simpl; intros H; [constructor|].
  inversion H as [|? ? Hl Hx]; subst. constructor; [auto|].
  rewrite Forall_map in Hx. exact Hx.
Qed.

(** X5.  Sorting the sorted list again gives the same list. *)
Theorem sorting_twice_changes_nothing (tags : pyval) (st : list pyval) :
  sorted_reverse tags = Ok st -> sorted_reverse (VList st) = Ok st.
Proof.
  intros Hs.
  destruct (sorted_reverse_inv _ _ Hs) as (items & keys0 & Hi & _ & _).
  pose proof (sorted_reverse_descending tags items st Hi Hs) as Hdesc.
  destruct (map_result_total _ _ (sorted_reverse_all_keyed tags st Hs))
    as [keys Hkeys].
  rewrite (sorted_reverse_pure (VList st) st keys eq_refl Hkeys).
  destruct (combine_keys _ _ (map_result_Forall2 _ _ _ Hkeys)) as [Hok Hsnd].
  set (l := combine keys st) in *.
  assert (Hl : StronglySorted (fun a b => keyed_ltb a b = false) l).
  { rewrite <- Hsnd in Hdesc. apply StronglySorted_of_map in Hdesc.
    rewrite <- (map_id l).
    eapply StronglySorted_map_in; [|exact Hdesc].
    intros a b Ha Hb Hab. simpl in Hab.
    unfold keyed_ok in Hok. rewrite Forall_forall in Hok.
    rewrite keyed_ltb_tag_ltb by auto. exact Hab. }
  apply StronglySorted_rev in Hl.
  rewrite (sort_by_sorted_id keyed_ltb (rev l) Hl), rev_involutive.
  now rewrite Hsnd.
Qed.

Lemma sorting_twice_changes_nothing_witness :
  sorted_reverse (VList [VStr "1.10.0"; VStr "1.9.0"; VStr "1.2.0"])
  = Ok [VStr "1.10.0"; VStr "1.9.0"; VStr "1.2.0"].
Proof.
  exact (sorting_twice_changes_nothing
           (VList [VStr "1.2.0"; VStr "1.10.0"; VStr "1.9.0"]) _ eq_refl).
Defined.

(** ** Every way a fetch can end *)

Lemma parse_version_error (version : pyval) (e : exn) :
  parse_version version = Raise e -> e = TypeError \/ e = ValueError.
Proof.
  destruct version; simpl; intros H;
    try (injection H as <-; now left).
  right. now apply (parse_version_str_error s).
Qed.

Lemma map_result_error {A B : Type} (f : A -> result B) (xs : list A) (e : exn) :
  map_result f xs = Raise e -> exists x, In x xs /\ f x = Raise e.
Proof.
  induction xs as [|x xs IH]; [discriminate|]. cbn [map_result].
  destruct (f x) as [y|e1] eqn:Hx; cbn [rbind].
  - destruct (map_result f xs) as [ys|e2]; cbn [rbind]; [discriminate|].
    intros H. injection H as <-. destruct (IH eq_refl) as (x' & Hin & Hx').
    exists x'. split; [now right|assumption].
  - intros H. injection H as <-. exists x. split; [now left|assumption].
Qed.

(** What makes the sort raise: the tags cannot be iterated, or one of them
    has no key. *)
Lemma sorted_reverse_error (tags : pyval) (e : exn) :
  sorted_reverse tags = Raise e ->
  (py_iter tags = Raise TypeError /\ e = TypeError)
  \/ exists items tag,
      py_iter tags = Ok items /\ In tag items /\ parse_version tag = Raise e.
Proof.
  unfold sorted_reverse. intros H.
  destruct (py_iter tags) as [items|e1] eqn:Hi; cbn [rbind] in H.
  - right. destruct (map_result parse_version items) as [keys|e2] eqn:Hk;
      cbn [rbind] in H.
    + rewrite sort_lt_pure in H; [discriminate|].
      apply keyed_ok_alternate, Forall_rev.
      apply combine_keys, map_result_Forall2, Hk.
    + injection H as <-. destruct (map_result_error _ _ _ Hk) as (t & Hin & Ht).
      eauto.
  - left. injection H as <-. destruct tags; simpl in Hi; try discriminate;
      injection Hi as <-; auto.
Qed.

Lemma sorted_reverse_error_kind (tags : pyval) (e : exn) :
  sorted_reverse tags = Raise e -> e = TypeError \/ e = ValueError.
Proof.
  intros H. destruct (sorted_reverse_error _ _ H)
    as [[_ ->]|(items & tag & _ & _ & Ht)]; [now left|].
  now apply (parse_version_error tag).
Qed.

Lemma getitem_error (obj : pyval) (name : string) (e : exn) :
  getitem obj name = Raise e -> e = KeyError \/ e = TypeError.
Proof.
  destruct obj; simpl; intros H; try (injection H as <-; now right).
  destruct (lookup name kvs); [discriminate|]. injection H as <-. now left.
Qed.

Lemma slice_to_error (xs : list pyval) (stop : pyval) (e : exn) :
  slice_to xs stop = Raise e -> sliceable stop = false /\ e = TypeError.
Proof.
  destruct stop; simpl; intros H; try discriminate;
    injection H as <-; auto.
Qed.

Section FetchEnds.

Variable w : world.
Variables registry image max_tags : pyval.
Variable h : list event.

Lemma fetch_tags_not_started :
  spawn w (h ++ [Print (fetching_line w registry image)])
        (skopeo_argv w registry image) = None ->
  fetch_tags w registry image max_tags h
  = (h ++ [Print (fetching_line w registry image);
           Run (skopeo_argv w registry image)], Raise OSError).
Proof.
  intros Hs. unfold fetching_line in *.
  unfold fetch_tags, bind, try_except, subprocess_run, print, emit.
  rewrite Hs. now rewrite <- !app_assoc.
Qed.

Variable r : completed.
Hypothesis Hspawn : spawn w (h ++ [Print (fetching_line w registry image)])
        (skopeo_argv w registry image) = Some r.
Hypothesis Hrc : returncode r = 0%Z.

Lemma fetch_tags_not_yaml (msg : string) :
  yaml w (stdout r) = YamlError msg ->
  fetch_tags w registry image max_tags h
  = (h ++ [Print (fetching_line w registry image);
           Run (skopeo_argv w registry image)], Raise (YAMLError msg)).
Proof.
  intros Hy. unfold fetching_line in *.
  unfold fetch_tags, bind, try_except, subprocess_run, yaml_safe_load,
    print, emit.
  rewrite Hspawn, Hrc. cbn [Z.eqb negb andb]. rewrite Hy. unfold raise.
  now rewrite <- !app_assoc.
Qed.

Variable response : pyval.
Hypothesis Hyaml : yaml w (stdout r) = YamlValue response.

Lemma fetch_tags_no_entry (e : exn) :
  getitem response "Tags" = Raise e ->
  fetch_tags w registry image max_tags h
  = (h ++ [Print (fetching_line w registry image);
           Run (skopeo_argv w registry image)], Raise e).
Proof.
  intros Hg. unfold fetching_line in *.
  unfold fetch_tags, bind, try_except, subprocess_run, yaml_safe_load,
    print, emit, lift.
  rewrite Hspawn, Hrc. cbn [Z.eqb negb andb]. rewrite Hyaml. unfold ret.
  rewrite Hg.
  destruct (getitem_error _ _ _ Hg) as [->| ->]; now rewrite <- !app_assoc.
Qed.

Variable tags : pyval.
Hypothesis Htags : getitem response "Tags" = Ok tags.
Hypothesis Htruthy : truthy tags = true.

Lemma fetch_tags_unsortable (e : exn) :
  sorted_reverse tags = Raise e ->
  fetch_tags w registry image max_tags h
  = (h ++ [Print (fetching_line w registry image);
           Run (skopeo_argv w registry image)], Raise e).
Proof.
  intros Hst. unfold fetching_line in *.
  unfold fetch_tags, bind, try_except, subprocess_run, yaml_safe_load,
    print, emit, lift.
  rewrite Hspawn, Hrc. cbn [Z.eqb negb andb]. rewrite Hyaml. unfold ret.
  rewrite Htags, Htruthy. cbn [negb]. rewrite Hst.
  now rewrite <- !app_assoc.
Qed.

Lemma fetch_tags_bad_max (st : list pyval) :
  sorted_reverse tags = Ok st ->
  sliceable max_tags = false ->
  fetch_tags w registry image max_tags h
  = (h ++ [Print (fetching_line w registry image);
           Run (skopeo_argv w registry image);
           Print (latest_line w max_tags image)],
     Raise TypeError).
Proof.
  intros Hst Hmax. unfold fetching_line in *.
  unfold fetch_tags, bind, try_except, subprocess_run, yaml_safe_load,
    print, emit, lift.
  rewrite Hspawn, Hrc. cbn [Z.eqb negb andb]. rewrite Hyaml. unfold ret.
  rewrite Htags, Htruthy. cbn [negb]. rewrite Hst.
  destruct max_tags; try discriminate; cbn [slice_to];
    now rewrite <- !app_assoc.
Qed.

End FetchEnds.

Lemma prints_only_prints {A : Type} (f : A -> string) (l : list A) :
  forallb is_print (map (fun x => Print (f x)) l) = true.
Proof. induction l; simpl; auto. Qed.

Lemma runs_of_prints (t : list event) : forallb is_print t = true -> runs t = [].
Proof.
  induction t as [|[argv|path|line] t IH]; simpl; intros H;
    try discriminate; auto.
Qed.

(** A fetch, whatever the world answers: the first line, the one start of
    the tool, then nothing but lines; and never an exit or an error of the
    tool's exit status let through. *)
Lemma fetch_tags_frame (w : world) (registry image max_tags : pyval)
      (h : list event) :
  exists t res,
    fetch_tags w registry image max_tags h
    = (h ++ Print (fetching_line w registry image)
         :: Run (skopeo_argv w registry image) :: t, res)
    /\ forallb is_print t = true
    /\ (forall e, res = Raise e -> ordinary e = true).
Proof.
  destruct (spawn w (h ++ [Print (fetching_line w registry image)])
                  (skopeo_argv w registry image)) as [r|] eqn:Hs.
  2:{ rewrite (fetch_tags_not_started w registry image max_tags h Hs).
      exists [], (Raise OSError). repeat split. intros e [= <-]. reflexivity. }
  destruct (Z.eq_dec (returncode r) 0) as [Hrc|Hrc].
  2:{ rewrite (fetch_tags_error w registry image max_tags h r Hs Hrc).
      eexists [_], (Ok tt). repeat split. discriminate. }
  destruct (yaml w (stdout r)) as [msg|response] eqn:Hy.
  { rewrite (fetch_tags_not_yaml w registry image max_tags h r Hs Hrc msg Hy).
    exists [], (Raise (YAMLError msg)). repeat split.
    intros e [= <-]. reflexivity. }
  destruct (getitem response "Tags") as [tags|e] eqn:Hg.
  2:{ rewrite (fetch_tags_no_entry w registry image max_tags h r Hs Hrc
                                   response Hy e Hg).
      exists [], (Raise e). repeat split. intros e' [= <-].
      destruct (getitem_error _ _ _ Hg) as [->| ->]; reflexivity. }
  destruct (truthy tags) eqn:Ht.
  2:{ rewrite (fetch_tags_no_tags w registry image max_tags h r Hs
                                  response tags Hrc Hy Hg Ht).
      eexists [_], (Ok tt). repeat split. discriminate. }
  destruct (sorted_reverse tags) as [st|e] eqn:Hst.
  2:{ rewrite (fetch_tags_unsortable w registry image max_tags h r Hs Hrc
                                     response Hy tags Hg Ht e Hst).
      exists [], (Raise e). repeat split. intros e' [= <-].
      destruct (sorted_reverse_error_kind _ _ Hst) as [->| ->]; reflexivity. }
  destruct (slice_to st max_tags) as [shown|e] eqn:Hsl.
  - rewrite (fetch_tags_listing w registry image max_tags h r Hs
                                response tags Hrc Hy Hg st shown Ht Hst Hsl).
    eexists (_ :: _ ++ [_]), (Ok tt). split; [reflexivity|]. split.
    + cbn [forallb is_print andb]. rewrite forallb_app, prints_only_prints.
      reflexivity.
    + discriminate.
  - destruct (slice_to_error _ _ _ Hsl) as [Hmax ->].
    rewrite (fetch_tags_bad_max w registry image max_tags h r Hs Hrc
                                response Hy tags Hg Ht st Hst Hmax).
    eexists [_], (Raise TypeError). repeat split. intros e [= <-]. reflexivity.
Qed.

(** X6.  The sort raises nothing but a [TypeError] or a [ValueError], and
    only because the tags cannot be iterated or one of them has no key; a
    fetch whose tags cannot be sorted ends with that exception right after
    the tool has run, before any header is printed. *)
Theorem unsortable_tags_stop_the_fetch :
  (forall (tags : pyval) (e : exn),
      sorted_reverse tags = Raise e ->
      (e = TypeError \/ e = ValueError)
      /\ ((py_iter tags = Raise TypeError /\ e = TypeError)
          \/ exists items tag,
              py_iter tags = Ok items /\ In tag items
              /\ parse_version tag = Raise e))
  /\ (forall (w : world) (registry image max_tags : pyval) (h : list event)
             (r : completed) (response tags : pyval) (e : exn),
         spawn w (h ++ [Print (fetching_line w registry image)])
               (skopeo_argv w registry image) = Some r ->
         returncode r = 0%Z ->
         yaml w (stdout r) = YamlValue response ->
         getitem response "Tags" = Ok tags ->
         truthy tags = true ->
         sorted_reverse tags = Raise e ->
         fetch_tags w registry image max_tags h
         = (h ++ [Print (fetching_line w registry image);
                  Run (skopeo_argv w registry image)],
            Raise e)).
Proof.
  split.
  - intros tags e H. split.
    + now apply (sorted_reverse_error_kind tags).
    + now apply sorted_reverse_error.
  - intros w registry image max_tags h r response tags e
           Hs Hrc Hy Hg Ht Hst.
    exact (fetch_tags_unsortable w registry image max_tags h r Hs Hrc
                                 response Hy tags Hg Ht e Hst).
Qed.

Lemma unsortable_tags_stop_the_fetch_witness :
  fetch_tags Broken.superscript_tag (VStr "quay.io") (VStr "a/one") (VInt 3) []
  = ([Print "Fetching tags for a/one from quay.io...";
      Run ["skopeo"; "list-tags"; "--no-creds"; "docker://quay.io/a/one"]],
     Raise ValueError).
Proof.
  exact (proj2 unsortable_tags_stop_the_fetch
               Broken.superscript_tag (VStr "quay.io") (VStr "a/one") (VInt 3)
               [] (Broken.answer "Tags: [superscript two]")
               (VDict [(VStr "Tags", VList [VStr Broken.superscript_two])])
               (VList [VStr Broken.superscript_two]) ValueError
               eq_refl eq_refl eq_refl eq_refl eq_refl eq_refl).
Defined.

Lemma slice_to_prefix (st : list pyval) (stop : pyval) (shown : list pyval) :
  slice_to st stop = Ok shown ->
  exists rest,
    st = shown ++ rest
    /\ (stop = VNone -> rest = [])
    /\ (forall n, stop = VInt n -> (0 <= n)%Z ->
                  List.length shown = Nat.min (Z.to_nat n) (List.length st)).
Proof.
  assert (Hint : forall n, exists m,
               slice_to_int st n = firstn m st
               /\ ((0 <= n)%Z -> m = Z.to_nat n)).
  { intros n. unfold slice_to_int. destruct (n <? 0)%Z eqn:Hn.
    - eexists. split; [reflexivity|]. apply Z.ltb_lt in Hn. lia.
    - eexists. split; [reflexivity|]. reflexivity. }
  destruct stop; simpl; intros H; try discriminate; injection H as <-.
  - exists []. rewrite app_nil_r. repeat split; congruence.
  - destruct (Hint (if b then 1 else 0)%Z) as (m & -> & _).
    exists (skipn m st). rewrite firstn_skipn. repeat split; congruence.
  - destruct (Hint z) as (m & -> & Hm).
    exists (skipn m st). rewrite firstn_skipn.
    split; [reflexivity|]. split; [congruence|].
    intros n [= <-] Hn. rewrite length_firstn, (Hm Hn). reflexivity.
Qed.

(** X7.  For tags that are there and can be sorted, whatever [max] is: if
    it can be a slice bound (an integer, a boolean, null), the fetch prints
    the header, an initial part of the sorted list and the blank line: all
    of the list for null, [min(max, length)] tags for an integer that is
    not negative; if it cannot, the fetch prints the header and raises a
    [TypeError] without printing a tag. *)
Theorem any_max_shows_an_initial_part
        (w : world) (registry image max_tags : pyval) (h : list event)
        (r : completed) (response tags : pyval) (st : list pyval) :
  spawn w (h ++ [Print (fetching_line w registry image)])
        (skopeo_argv w registry image) = Some r ->
  returncode r = 0%Z ->
  yaml w (stdout r) = YamlValue response ->
  getitem response "Tags" = Ok tags ->
  truthy tags = true ->
  sorted_reverse tags = Ok st ->
  (sliceable max_tags = true ->
   exists shown rest,
     st = shown ++ rest
     /\ fetch_tags w registry image max_tags h
        = (h ++ [Print (fetching_line w registry image);
                 Run (skopeo_argv w registry image);
                 Print (latest_line w max_tags image)]
             ++ map (fun tag => Print (py_str w tag)) shown
             ++ [Print ""],
           Ok tt)
     /\ (max_tags = VNone -> shown = st)
     /\ (forall n, max_tags = VInt n -> (0 <= n)%Z ->
                   List.length shown = Nat.min (Z.to_nat n) (List.length st)))
  /\ (sliceable max_tags = false ->
      fetch_tags w registry image max_tags h
      = (h ++ [Print (fetching_line w registry image);
               Run (skopeo_argv w registry image);
               Print (latest_line w max_tags image)],
         Raise TypeError)).
Proof.
  intros Hs Hrc Hy Hg Ht Hst. split.
  - intros Hmax.
    destruct (slice_to st max_tags) as [shown|e] eqn:Hsl.
    2:{ destruct (slice_to_error _ _ _ Hsl) as [Hno _]. congruence. }
    destruct (slice_to_prefix _ _ _ Hsl) as (rest & Hsplit & Hnone & Hlen).
    exists shown, rest. split; [exact Hsplit|]. split; [|split].
    + exact (fetch_tags_listing w registry image max_tags h r Hs
                                response tags Hrc Hy Hg st shown Ht Hst Hsl).
    + intros Hn. rewrite Hsplit, (Hnone Hn). now rewrite app_nil_r.
    + exact Hlen.
  - intros Hmax.
    exact (fetch_tags_bad_max w registry image max_tags h r Hs Hrc
                              response Hy tags Hg Ht st Hst Hmax).
Qed.

Lemma any_max_shows_an_initial_part_witness :
  fetch_tags Sample.w (VStr "quay.io") (VStr "a/three") (VStr "2") []
  = ([Print "Fetching tags for a/three from quay.io...";
      Run ["skopeo"; "list-tags"; "--no-creds"; "docker://quay.io/a/three"];
      Print "Latest 2 tags for a/three:"],
     Raise TypeError).
Proof.
  exact (proj2 (any_max_shows_an_initial_part
                  Sample.w (VStr "quay.io") (VStr "a/three") (VStr "2") []
                  (Sample.answer "three")
                  (Sample.tags_of ["1.2.0"; "1.10.0"; "1.9.0"])
                  (VList [VStr "1.2.0"; VStr "1.10.0"; VStr "1.9.0"])
                  [VStr "1.10.0"; VStr "1.9.0"; VStr "1.2.0"]
                  eq_refl eq_refl eq_refl eq_refl eq_refl eq_refl)
               eq_refl).
Defined.

(** X8.  Whatever the world answers, a fetch prints its first line, starts
    the tool once, with the command line of its pair, and after that only
    prints; it opens no file, and neither an exit of the process nor the
    error of a non-zero exit status comes out of it. *)
Theorem fetch_runs_the_tool_once
        (w : world) (registry image max_tags : pyval) (h : list event) :
  exists t res,
    fetch_tags w registry image max_tags h
    = (h ++ Print (fetching_line w registry image)
         :: Run ["skopeo"; "list-tags"; "--no-creds";
                 "docker://" ^ py_str w registry ^ "/" ^ py_str w image]
         :: t,
       res)
    /\ forallb is_print t = true
    /\ (forall code, res <> Raise (SystemExit code))
    /\ (forall rc err, res <> Raise (CalledProcessError rc err)).
Proof.
  destruct (fetch_tags_frame w registry image max_tags h)
    as (t & res & Hf & Hp & Hord).
  exists t, res. split; [exact Hf|]. split; [exact Hp|]. split.
  - intros code Hres. specialize (Hord _ Hres). discriminate.
  - intros rc err Hres. specialize (Hord _ Hres). discriminate.
Qed.

(** ** The loops, whatever the world answers *)

Section Loops.

Variable w : world.
Variable max_tags : pyval.

Lemma images_loop_any (registry : pyval) (images : list pyval) :
  forall h,
    exists n t res,
      for_each images (fun image => fetch_tags w registry image max_tags) h
      = (h ++ t, res)
      /\ runs t = map (skopeo_argv w registry) (firstn n images)
      /\ (n <= List.length images)%nat
      /\ (res = Ok tt -> n = List.length images)
      /\ (forall e, res = Raise e -> ordinary e = true).
Proof.
  induction images as [|image images IH]; intros h.
  - exists 0%nat, [], (Ok tt). simpl. rewrite app_nil_r.
    repeat split; auto; discriminate.
  - destruct (fetch_tags_frame w registry image max_tags h)
      as (t1 & res1 & H1 & P1 & O1).
    assert (R1 : runs (Print (fetching_line w registry image)
                         :: Run (skopeo_argv w registry image) :: t1)
                 = [skopeo_argv w registry image]).
    { cbn [runs]. now rewrite (runs_of_prints t1 P1). }
    destruct res1 as [[]|e].
    + destruct (IH (h ++ Print (fetching_line w registry image)
                      :: Run (skopeo_argv w registry image) :: t1))
        as (n & t2 & res & H2 & R2 & L2 & K2 & O2).
      exists (S n), (Print (fetching_line w registry image)
                       :: Run (skopeo_argv w registry image) :: t1 ++ t2), res.
      split; [|split; [|split; [|split]]].
      * rewrite (for_each_step
                   (fun image => fetch_tags w registry image max_tags)
                   image images h _ H1), H2.
        now rewrite <- app_assoc.
      * cbn [runs firstn map]. rewrite runs_app, R2.
        now rewrite (runs_of_prints t1 P1).
      * simpl. lia.
      * intros Hres. simpl. now rewrite (K2 Hres).
      * exact O2.
    + exists 1%nat, (Print (fetching_line w registry image)
                       :: Run (skopeo_argv w registry image) :: t1), (Raise e).
      split; [|split; [|split; [|split]]].
      * now rewrite (for_each_raise
                       (fun image => fetch_tags w registry image max_tags)
                       image images h _ e H1).
      * rewrite R1. reflexivity.
      * simpl. lia.
      * discriminate.
      * exact O1.
Qed.

Lemma firstn_app_short {A : Type} (n : nat) (l1 l2 : list A) :
  (n <= List.length l1)%nat -> firstn n (l1 ++ l2) = firstn n l1.
Proof.
  intros H. rewrite firstn_app.
  replace (n - List.length l1)%nat with 0%nat by lia.
  simpl. apply app_nil_r.
Qed.

Lemma registries_loop_any (entries : list pyval) :
  forall (pairs : list (list (pyval * pyval))) (h : list event),
    map_result entry_pairs entries = Ok pairs ->
    exists n t res,
      for_each entries (fetch_registry w max_tags) h = (h ++ t, res)
      /\ runs t = map (pair_argv w) (firstn n (List.concat pairs))
      /\ (res = Ok tt -> n = List.length (List.concat pairs))
      /\ (forall e, res = Raise e -> ordinary e = true).
Proof.
  induction entries as [|entry entries IH]; intros pairs h Hp.
  - injection Hp as <-. exists 0%nat, [], (Ok tt). simpl. rewrite app_nil_r.
    repeat split; auto; discriminate.
  - cbn [map_result] in Hp.
    destruct (entry_pairs entry) as [ps|e] eqn:He; cbn [rbind] in Hp;
      [|discriminate].
    destruct (map_result entry_pairs entries) as [pss|e] eqn:Hrest;
      cbn [rbind] in Hp; [|discriminate].
    injection Hp as <-.
    unfold entry_pairs in He.
    destruct (getitem entry "registry") as [registry|e] eqn:Hr;
      cbn [rbind] in He; [|discriminate].
    destruct (rbind (getitem entry "images") py_iter) as [images|e] eqn:Hi;
      cbn [rbind] in He; [|discriminate].
    injection He as <-.
    destruct (images_loop_any registry images h)
      as (n1 & t1 & res1 & H1 & R1 & L1 & K1 & O1).
    assert (Hentry : fetch_registry w max_tags entry h = (h ++ t1, res1)).
    { unfold fetch_registry, bind, lift. now rewrite Hr, Hi. }
    assert (Hargv : map (pair_argv w) (firstn n1 (map (pair registry) images))
                    = map (skopeo_argv w registry) (firstn n1 images)).
    { rewrite firstn_map, map_map. reflexivity. }
    cbn [List.concat].
    destruct res1 as [[]|e].
    + destruct (IH pss (h ++ t1) eq_refl) as (n2 & t2 & res & H2 & R2 & K2 & O2).
      exists (List.length images + n2)%nat, (t1 ++ t2), res.
      split; [|split; [|split]].
      * rewrite (for_each_step (fetch_registry w max_tags) entry entries
                               h (h ++ t1) Hentry), H2.
        now rewrite app_assoc.
      * rewrite runs_app, R1, R2. pose proof (K1 eq_refl) as ->.
        rewrite firstn_all.
        replace (List.length images)
          with (List.length (map (pair registry) images))
          by apply length_map.
        rewrite firstn_app_2, map_app, map_map. reflexivity.
      * intros Hres. rewrite length_app, length_map. now rewrite (K2 Hres).
      * exact O2.
    + exists n1, t1, (Raise e). split; [|split; [|split]].
      * now rewrite (for_each_raise (fetch_registry w max_tags) entry entries
                                    h (h ++ t1) e Hentry).
      * rewrite R1, <- Hargv. rewrite firstn_app_short; [reflexivity|].
        now rewrite length_map.
      * discriminate.
      * exact O1.
Qed.

End Loops.

Lemma config_pairs_mapping (config : pyval) (pairs : list (pyval * pyval)) :
  config_pairs config = Ok pairs ->
  exists max_tags entries pss,
    dict_get config "max" (VInt 3) = Ok max_tags
    /\ rbind (getitem config "registries") py_iter = Ok entries
    /\ map_result entry_pairs entries = Ok pss
    /\ pairs = List.concat pss.
Proof.
  unfold config_pairs. intros H.
  destruct (rbind (getitem config "registries") py_iter) as [entries|e] eqn:He;
    cbn [rbind] in H; [|discriminate].
  destruct (map_result entry_pairs entries) as [pss|e] eqn:Hp;
    cbn [rbind] in H; [|discriminate].
  injection H as <-.
  destruct config; simpl in He; try discriminate.
  simpl. destruct (lookup "max" kvs); eauto 10.
Qed.

(** X9.  With the tool found and a configuration of the expected shape
    loaded, whatever the tool answers: it is started for the pairs of the
    configuration in their order, each at most once and none left out in
    between, up to the pair where the run ends; a run that ends with
    status 0 has started it for every pair. *)
Theorem tool_runs_follow_the_configuration
        (w : world) (r : completed) (text : string) (config : pyval)
        (pairs : list (pyval * pyval)) :
  spawn w [] ["which"; "skopeo"] = Some r ->
  returncode r = 0%Z ->
  file w [Run ["which"; "skopeo"]] "config.yaml" = Content text ->
  yaml w text = YamlValue config ->
  config_pairs config = Ok pairs ->
  exists n,
    runs (fst (run_script w))
    = ["which"; "skopeo"]
        :: map (fun p => skopeo_argv w (fst p) (snd p)) (firstn n pairs)
    /\ (snd (run_script w) = 0%Z -> n = List.length pairs).
Proof.
  intros Hs Hrc Hf Hy Hpairs.
  destruct (config_pairs_mapping _ _ Hpairs)
    as (max_tags & entries & pss & Hmax & He & Hpss & ->).
  rewrite run_script_main, (main_tool_found w r Hs Hrc).
  rewrite (after_check_loaded w _ text config Hf Hy).
  destruct (registries_loop_any w max_tags entries pss
                                ([Run ["which"; "skopeo"]] ++ [Open "config.yaml"])
                                Hpss) as (n & t & res & Ht & Hr & Hk & Ho).
  unfold after_config, bind, lift. rewrite Hmax, He, Ht. cbn [fst snd].
  exists n. split.
  - rewrite runs_app, Hr. reflexivity.
  - intros Hcode. apply Hk. destruct res as [[]|e]; [reflexivity|].
    specialize (Ho e eq_refl). destruct e; try discriminate.
Qed.

Lemma tool_runs_follow_the_configuration_witness :
  exists n,
    runs (fst (run_script Broken.no_output))
    = ["which"; "skopeo"]
        :: map (fun p => skopeo_argv Broken.no_output (fst p) (snd p))
               (firstn n [(VStr "quay.io", VStr "a/one");
                          (VStr "quay.io", VStr "a/two")])
    /\ (snd (run_script Broken.no_output) = 0%Z -> n = 2%nat).
Proof.
  exact (tool_runs_follow_the_configuration
           Broken.no_output (Broken.answer "/usr/bin/skopeo") "config"
           Broken.config _ eq_refl eq_refl eq_refl eq_refl eq_refl).
Defined.

(** ** How a run can end *)





Lemma getitem_iter_error (obj : pyval) (name : string) (e : exn) :
  rbind (getitem obj name) py_iter = Raise e -> e = KeyError \/ e = TypeError.
Proof.
  destruct (getitem obj name) as [v|e1] eqn:Hg; cbn [rbind].
  - intros H. right. destruct v; simpl in H; try discriminate;
      now injection H as <-.
  - intros [= <-]. now apply (getitem_error obj name).
Qed.




Lemma after_check_unreadable (w : world) (h : list event) :
  file w h "config.yaml" = Unreadable ->
  after_check w h = (h ++ [Open "config.yaml"], Raise OSError).
Proof.
  intros Hf. unfold after_check, bind, load_config, try_except, bind, open_read.
  now rewrite Hf.
Qed.



(** X11.  Failures before the first fetch that print nothing: when [which]
    itself cannot be started, when the configuration file is there but
    cannot be read, and when what was loaded is not a mapping ([None] for
    an empty file), has no [registries], or has [registries] that cannot be
    iterated.  Each ends the run with status 1, after the search for the
    tool or after the file was opened, and before any fetch. *)
Theorem failures_without_a_message (w : world) :
  (spawn w [] ["which"; "skopeo"] = None ->
   run_script w = ([Run ["which"; "skopeo"]], 1%Z))
  /\ (forall r : completed,
         spawn w [] ["which"; "skopeo"] = Some r ->
         returncode r = 0%Z ->
         (file w [Run ["which"; "skopeo"]] "config.yaml" = Unreadable ->
          run_script w
          = ([Run ["which"; "skopeo"]; Open "config.yaml"], 1%Z))
         /\ (forall (text : string) (config : pyval),
                file w [Run ["which"; "skopeo"]] "config.yaml" = Content text ->
                yaml w text = YamlValue config ->
                (is_mapping config = false ->
                 main w []
                 = ([Run ["which"; "skopeo"]; Open "config.yaml"],
                    Raise AttributeError))
                /\ (forall e,
                       is_mapping config = true ->
                       rbind (getitem config "registries") py_iter = Raise e ->
                       (e = KeyError \/ e = TypeError)
                       /\ main w []
                          = ([Run ["which"; "skopeo"]; Open "config.yaml"],
                             Raise e)))).
Proof.
  split.
  - intros Hs. now rewrite run_script_main, (main_tool_unavailable w Hs).
  - intros r Hs Hrc. split.
    + intros Hf. rewrite run_script_main, (main_tool_found w r Hs Hrc).
      now rewrite (after_check_unreadable w _ Hf).
    + intros text config Hf Hy.
      rewrite (main_tool_found w r Hs Hrc).
      rewrite (after_check_loaded w _ text config Hf Hy).
      split.
      * intros Hm. destruct config; try discriminate; reflexivity.
      * intros e Hm He. split; [now apply (getitem_iter_error config "registries")|].
        destruct config as [| | | | |kvs]; try discriminate.
        unfold after_config, bind, lift. cbn [dict_get].
        destruct (lookup "max" kvs); now rewrite He.
Qed.

Lemma failures_without_a_message_witness :
  main EmptyConfig.w []
  = ([Run ["which"; "skopeo"]; Open "config.yaml"], Raise AttributeError).
Proof.
  exact (proj1 (proj2 (proj2 (failures_without_a_message EmptyConfig.w)
                             (Broken.answer "/usr/bin/skopeo") eq_refl eq_refl)
                      "" VNone eq_refl eq_refl)
               eq_refl).
Defined.

Lemma for_each_app {A : Type} (body : A -> M unit) (l1 l2 : list A)
      (h h' : list event) :
  for_each l1 body h = (h', Ok tt) ->
  for_each (l1 ++ l2) body h = for_each l2 body h'.
Proof.
  revert h. induction l1 as [|x l1 IH]; intros h H.
  - simpl in H. unfold ret in H. now injection H as <-.
  - cbn [for_each app] in *. unfold bind in *.
    destruct (body x h) as [h1 [[]|e]]; [|discriminate]. now apply IH.
Qed.

Lemma fetch_registry_malformed (w : world) (max_tags entry : pyval)
      (h : list event) (e : exn) :
  entry_pairs entry = Raise e ->
  fetch_registry w max_tags entry h = (h, Raise e).
Proof.
  unfold entry_pairs, fetch_registry, bind, lift. intros H.
  destruct (getitem entry "registry") as [registry|e1]; cbn [rbind] in H.
  - destruct (rbind (getitem entry "images") py_iter) as [images|e2];
      cbn [rbind] in H; [discriminate|]. now injection H as <-.
  - now injection H as <-.
Qed.

(** X12.  A registry entry without its [registry] or its [images] is only
    noticed when the loop reaches it: with answers of the tool that the
    fetch copes with, the tool is run for every pair of the entries before
    it, then the [KeyError] or [TypeError] ends the run with status 1, and
    the entries after it are not looked at. *)
Theorem malformed_entry_stops_the_run_when_reached
        (w : world) (r : completed) (text : string)
        (kvs : list (pyval * pyval)) (registries max_tags bad : pyval)
        (good rest : list pyval) (pairs : list (list (pyval * pyval)))
        (e : exn) :
  spawn w [] ["which"; "skopeo"] = Some r ->
  returncode r = 0%Z ->
  file w [Run ["which"; "skopeo"]] "config.yaml" = Content text ->
  yaml w text = YamlValue (VDict kvs) ->
  lookup "registries" kvs = Some registries ->
  py_iter registries = Ok (good ++ bad :: rest) ->
  map_result entry_pairs good = Ok pairs ->
  entry_pairs bad = Raise e ->
  dict_get (VDict kvs) "max" (VInt 3) = Ok max_tags ->
  sliceable max_tags = true ->
  (forall h registry image,
      exists a, spawn w h (skopeo_argv w registry image) = Some a
                /\ benign w a) ->
  (e = KeyError \/ e = TypeError)
  /\ exists trace,
      main w [] = (trace, Raise e)
      /\ snd (run_script w) = 1%Z
      /\ runs trace
         = ["which"; "skopeo"]
             :: map (fun p => skopeo_argv w (fst p) (snd p))
                    (List.concat pairs).
Proof.
  intros Hs Hrc Hf Hy Hregs Hiter Hgood Hbad Hmax Hslice Hbenign.
  assert (He : e = KeyError \/ e = TypeError).
  { unfold entry_pairs in Hbad.
    destruct (getitem bad "registry") as [registry|e1] eqn:H1;
      cbn [rbind] in Hbad.
    - destruct (rbind (getitem bad "images") py_iter) as [images|e2] eqn:H2;
        cbn [rbind] in Hbad; [discriminate|]. injection Hbad as <-.
      now apply (getitem_iter_error bad "images").
    - injection Hbad as <-. now apply (getitem_error bad "registry"). }
  split; [exact He|].
  destruct (registries_loop w max_tags Hslice Hbenign good pairs
                            ([Run ["which"; "skopeo"]] ++ [Open "config.yaml"])
                            Hgood) as (t & Ht & Hr).
  assert (Hmain :
            main w []
            = (([Run ["which"; "skopeo"]] ++ [Open "config.yaml"]) ++ t,
               Raise e)).
  { rewrite (main_tool_found w r Hs Hrc).
    rewrite (after_check_loaded w _ text (VDict kvs) Hf Hy).
    unfold after_config, bind, lift. rewrite Hmax.
    cbn [getitem]. rewrite Hregs. cbn [rbind]. rewrite Hiter.
    rewrite (for_each_app (fetch_registry w max_tags) good (bad :: rest)
                          _ _ Ht).
    apply for_each_raise. now apply fetch_registry_malformed. }
  eexists. split; [exact Hmain|]. split.
  - rewrite run_script_main, Hmain. cbn [snd exit_code].
    destruct He as [->| ->]; reflexivity.
  - rewrite runs_app, Hr. reflexivity.
Qed.

Lemma malformed_entry_stops_the_run_when_reached_witness :
  exists trace,
    main BadEntry.w [] = (trace, Raise KeyError)
    /\ snd (run_script BadEntry.w) = 1%Z
    /\ runs trace
       = [["which"; "skopeo"];
          ["skopeo"; "list-tags"; "--no-creds"; "docker://quay.io/a/one"]].
Proof.
  refine (proj2 (malformed_entry_stops_the_run_when_reached
                   BadEntry.w (Sample.answer "/usr/bin/skopeo") "config"
                   _ _ (VInt 3) (VDict [(VStr "registry", VStr "ghcr.io")])
                   [VDict [(VStr "registry", VStr "quay.io");
                           (VStr "images", VList [VStr "a/one"])]]
                   [VDict [(VStr "registry", VStr "docker.io");
                           (VStr "images", VList [VStr "a/two"])]]
                   [[(VStr "quay.io", VStr "a/one")]] KeyError
                   eq_refl eq_refl eq_refl eq_refl eq_refl eq_refl eq_refl
                   eq_refl eq_refl eq_refl _)).
  intros h registry image. eexists. split; [reflexivity|].
  left. discriminate.
Defined.
